(** * ai-faucet: the network registry, the intent parser and the dispatcher

    A shallow embedding of the three TypeScript sources of the repository:

    - [networks.ts] (the registry: [networks], [getAvailableNetworks],
      [getNetwork]), module [Networks];
    - the multi-network faucet (the file that imports [./networks]:
      [getNetworksFromInput], [parseAIResponse], [makeTransaction],
      [getTransactionStatus], [makeMultipleTransactions]), module [Faucet];
    - the single-network agent [src/index.ts] ([parseAIResponse],
      [makeTransaction], [getTransactionStatus] and the polling part of
      [main]), module [Agent].

    JavaScript strings are sequences of UTF-16 code units, [list N].  What
    the sources take from the JavaScript engine and from the viem library
    (lower-casing, printing of numbers, the chain constants, [parseEther],
    [formatEther], the RPC calls) is an interface: a type class whose
    methods the embedded functions call.  A reference instance is given at
    the end to run the functions on concrete inputs. *)

From Stdlib Require Import List ZArith NArith Bool Lia Arith Permutation.
From Stdlib Require String Ascii DecimalString.
Import String.StringSyntax.
Import ListNotations.

Set Implicit Arguments.

Local Open Scope N_scope.
Local Open Scope list_scope.

(* ================================================================== *)
(** * JavaScript strings *)
(* ================================================================== *)

Abbreviation JSString := (list N).

(** A source literal: one code unit per ASCII character. *)
Definition js (s : String.string) : JSString :=
  List.map Ascii.N_of_ascii (String.list_ascii_of_string s).
Arguments js s%_string_scope.

Fixpoint jsEqb (a b : JSString) : bool :=
  match a, b with
  | [], [] => true
  | x :: a', y :: b' => (x =? y) && jsEqb a' b'
  | _, _ => false
  end.

(** [s.startsWith(p)] *)
Fixpoint startsWith (p s : JSString) : bool :=
  match p, s with
  | [], _ => true
  | x :: p', y :: s' => (x =? y) && startsWith p' s'
  | _ :: _, [] => false
  end.

(** [s.includes(needle)] *)
Fixpoint includes (s needle : JSString) : bool :=
  startsWith needle s ||
  match s with
  | [] => false
  | _ :: s' => includes s' needle
  end.

(** [needle] occurs in [s] as a contiguous run of code units. *)
Definition Substring (needle s : JSString) : Prop :=
  exists pre post, s = pre ++ needle ++ post.

(** [WhiteSpace] and [LineTerminator] of ECMAScript: what [trim] removes
    and what the regular expression class [\s] matches. *)
Definition isWhiteSpace (c : N) : bool :=
  ((9 <=? c) && (c <=? 13)) || (c =? 32) || (c =? 160) || (c =? 5760) ||
  ((8192 <=? c) && (c <=? 8202)) || (c =? 8232) || (c =? 8233) ||
  (c =? 8239) || (c =? 8287) || (c =? 12288) || (c =? 65279).

Fixpoint trimStart (s : JSString) : JSString :=
  match s with
  | c :: s' => if isWhiteSpace c then trimStart s' else s
  | [] => []
  end.

Definition trimEnd (s : JSString) : JSString := rev (trimStart (rev s)).

(** [s.trim()] *)
Definition trim (s : JSString) : JSString := trimEnd (trimStart s).

(** ** Thrown values and completions *)

(** What a [throw] carries: an [Error] object (of any subclass) with its
    [message], or some other value, kept as what [String(error)] gives. *)
Inductive Thrown : Type :=
| ErrorObject (message : JSString)
| OtherValue (asString : JSString).

(** The outcome of evaluating a piece of code that may throw. *)
Inductive Completion (A : Type) : Type :=
| Normal (a : A)
| Throw (e : Thrown).
Arguments Normal {A} a.
Arguments Throw {A} e.

Definition bindC {A B} (c : Completion A) (k : A -> Completion B)
  : Completion B :=
  match c with
  | Normal a => k a
  | Throw e => Throw e
  end.

(** [try { body } catch (error) { handler }] *)
Definition tryCatch {A} (body : Completion A) (handler : Thrown -> Completion A)
  : Completion A :=
  match body with
  | Normal a => Normal a
  | Throw e => handler e
  end.

(** [error instanceof Error ? error.message : String(error)] *)
Definition messageOf (e : Thrown) : JSString :=
  match e with
  | ErrorObject m => m
  | OtherValue s => s
  end.

(** ** The engine *)

(** Built-ins of the JavaScript engine whose tables are not part of the
    repository. *)
Class JSEngine : Type := {
  (** [String.prototype.toLowerCase] *)
  toLowerCase : JSString -> JSString;
  (** [Number::toString] of the double nearest to [m * 10^e] *)
  NumberToString : Z -> Z -> JSString
}.

(** Own-or-inherited names of [Object.prototype]: what a property read on
    a plain object finds when the object has no own property of that
    name. *)
Definition ObjectPrototype_names : list JSString :=
  [ js "constructor"; js "hasOwnProperty"; js "isPrototypeOf";
    js "propertyIsEnumerable"; js "toLocaleString"; js "toString";
    js "valueOf"; js "__proto__"; js "__defineGetter__";
    js "__defineSetter__"; js "__lookupGetter__"; js "__lookupSetter__" ].

Definition inObjectPrototype (k : JSString) : bool :=
  existsb (jsEqb k) ObjectPrototype_names.

(* ================================================================== *)
(** * networks.ts *)
(* ================================================================== *)

Module Networks.

Record NativeCurrency : Type := {
  decimals : Z;
  currency_name : JSString;
  currency_symbol : JSString
}.

(** viem's [Chain], with the fields the sources set or read. *)
Record Chain : Type := {
  chain_id : Z;
  chain_name : JSString;
  nativeCurrency : NativeCurrency;
  rpcUrl : JSString;
  testnet : bool
}.

(** The chains imported from [viem/chains]. *)
Class ViemChains : Type := {
  sepolia : Chain;
  abstractTestnet : Chain;
  optimismSepolia : Chain;
  polygon : Chain
}.

(** [const shardeumAtomium = { id: 8082, ... } as const] *)
Definition shardeumAtomium : Chain := {|
  chain_id := 8082%Z;
  chain_name := js "Shardeum Atomium";
  nativeCurrency := {| decimals := 18%Z;
                       currency_name := js "Shardeum";
                       currency_symbol := js "SHM" |};
  rpcUrl := js "https://atomium.shardeum.org";
  testnet := true
|}.

Record FaucetConfig : Type := {
  symbol : JSString;
  amount : JSString
}.

(** A read client and a signing client, each bound to the chain it was
    created for. *)
Record PublicClient : Type := { pc_chain : Chain }.
Record WalletClient (Account : Type) : Type := {
  wc_account : Account;
  wc_chain : Chain
}.

Definition createPublicClient (chain : Chain) : PublicClient :=
  {| pc_chain := chain |}.
Definition createWalletClient {Account} (account : Account) (chain : Chain)
  : WalletClient Account :=
  {| wc_account := account; wc_chain := chain |}.

Record NetworkConfig : Type := {
  chain : Chain;
  publicClient : PublicClient;
  faucet : FaucetConfig
}.

(** [walletClient: (account) => createWalletClient({account, chain, ...})] *)
Definition walletClient {Account} (cfg : NetworkConfig) (account : Account)
  : WalletClient Account :=
  createWalletClient account (chain cfg).

Definition createNetworkConfig (c : Chain) (faucetConfig : FaucetConfig)
  : NetworkConfig :=
  {| chain := c;
     publicClient := createPublicClient c;
     faucet := faucetConfig |}.

(** What the property read [networks[name]] evaluates to: the value of
    an own property, something found on [Object.prototype] (a built-in
    function or, for [__proto__], the prototype object itself), or
    [undefined]. *)
Inductive Lookup : Type :=
| Own (cfg : NetworkConfig)
| Inherited (key : JSString)
| Undefined.

Section Registry.
Context `{ViemChains}.

(** The entries of the [networks] object literal, as written: key,
    chain, faucet policy. *)
Definition registrations : list (JSString * Chain * FaucetConfig) :=
  [ (js "sepolia", sepolia,
     {| symbol := js "ETH"; amount := js "0.01" |});
    (js "abstract", abstractTestnet,
     {| symbol := js "ETH"; amount := js "0.01" |});
    (js "optimism-sepolia", optimismSepolia,
     {| symbol := js "ETH"; amount := js "0.01" |});
    (js "polygon", polygon,
     {| symbol := js "POL"; amount := js "0.1" |});
    (js "shardeum-atomium", shardeumAtomium,
     {| symbol := js "SHM"; amount := js "100" |}) ].

(** [const networks: Record<string, NetworkConfig> = { ... }]: the own
    properties of the object, in creation order.  Its prototype is
    [Object.prototype]. *)
Definition networks : list (JSString * NetworkConfig) :=
  List.map (fun '(key, c, f) => (key, createNetworkConfig c f))
           registrations.

(** [Object.keys(networks)] *)
Definition getAvailableNetworks : list JSString :=
  List.map fst networks.

Fixpoint getOwn (props : list (JSString * NetworkConfig)) (name : JSString)
  : option NetworkConfig :=
  match props with
  | [] => None
  | (k, v) :: rest => if jsEqb k name then Some v else getOwn rest name
  end.

(** [return networks[name];] *)
Definition getNetwork (name : JSString) : Lookup :=
  match getOwn networks name with
  | Some cfg => Own cfg
  | None => if inObjectPrototype name then Inherited name else Undefined
  end.

(** [!network] *)
Definition isFalsyLookup (l : Lookup) : bool :=
  match l with
  | Undefined => true
  | _ => false
  end.

End Registry.

End Networks.

(* ================================================================== *)
(** * JSON values and [JSON.parse] *)
(* ================================================================== *)

Module Json.

(** A decoded JSON text.  A number keeps the exact decimal value of its
    literal, [m * 10^e]; an object keeps its members in source order. *)
#[local] Unset Elimination Schemes.
Inductive JSValue : Type :=
| JNull
| JBool (b : bool)
| JNumber (m e : Z)
| JString (s : JSString)
| JArray (items : list JSValue)
| JObject (props : list (JSString * JSValue)).
#[local] Set Elimination Schemes.

(** ** Lexical helpers *)

Definition isJsonWs (c : N) : bool :=
  (c =? 32) || (c =? 9) || (c =? 10) || (c =? 13).

Fixpoint skipWs (s : JSString) : JSString :=
  match s with
  | c :: s' => if isJsonWs c then skipWs s' else s
  | [] => []
  end.

Definition isDigit (c : N) : bool := (48 <=? c) && (c <=? 57).

Definition hexVal (c : N) : option N :=
  if (48 <=? c) && (c <=? 57) then Some (c - 48)
  else if (97 <=? c) && (c <=? 102) then Some (c - 87)
  else if (65 <=? c) && (c <=? 70) then Some (c - 55)
  else None.

Definition hex4 (a b c d : N) : option N :=
  match hexVal a, hexVal b, hexVal c, hexVal d with
  | Some x, Some y, Some z, Some w => Some (((x * 16 + y) * 16 + z) * 16 + w)
  | _, _, _, _ => None
  end.

(** The code unit a one-letter escape stands for. *)
Definition simpleEscape (c : N) : option N :=
  if c =? 34 then Some 34        (* quotation mark *)
  else if c =? 92 then Some 92   (* reverse solidus *)
  else if c =? 47 then Some 47   (* solidus *)
  else if c =? 98 then Some 8    (* b: backspace *)
  else if c =? 102 then Some 12  (* f: form feed *)
  else if c =? 110 then Some 10  (* n: line feed *)
  else if c =? 114 then Some 13  (* r: carriage return *)
  else if c =? 116 then Some 9   (* t: tab *)
  else None.

(** The characters of a string literal after its opening quote, up to
    and including the closing quote. *)
Fixpoint parseStringBody (s : JSString) (acc : JSString)
  : option (JSString * JSString) :=
  match s with
  | [] => None
  | c :: rest =>
    if c =? 34 then Some (rev acc, rest)
    else if c <? 32 then None
    else if c =? 92 then
      match rest with
      | [] => None
      | e :: rest1 =>
        if e =? 117 then
          match rest1 with
          | h1 :: h2 :: h3 :: h4 :: rest2 =>
            match hex4 h1 h2 h3 h4 with
            | Some u => parseStringBody rest2 (u :: acc)
            | None => None
            end
          | _ => None
          end
        else
          match simpleEscape e with
          | Some u => parseStringBody rest1 (u :: acc)
          | None => None
          end
      end
    else parseStringBody rest (c :: acc)
  end.

Fixpoint spanDigits (s : JSString) : JSString * JSString :=
  match s with
  | c :: s' =>
    if isDigit c then let (ds, r) := spanDigits s' in (c :: ds, r)
    else ([], s)
  | [] => ([], [])
  end.

Definition digitsToZ (ds : JSString) : Z :=
  fold_left (fun acc c => (acc * 10 + Z.of_N (c - 48))%Z) ds 0%Z.

(** A number literal: an optional minus sign; an integer part, either
    a lone zero or digits not starting with zero; an optional fraction,
    a point and one digit or more; an optional exponent, [e] or [E], an
    optional sign and one digit or more. *)
Definition parseNumber (s : JSString) : option (JSValue * JSString) :=
  let (neg, s0) :=
    match s with
    | c :: r => if c =? 45 then (true, r) else (false, s)
    | [] => (false, s)
    end in
  let (ip, s1) := spanDigits s0 in
  match ip with
  | [] => None
  | d :: ds =>
    if (d =? 48) && negb (Nat.eqb (length ds) 0) then None
    else
      let fracPart :=
        match s1 with
        | c :: r =>
          if c =? 46 then
            let (fp, s2) := spanDigits r in
            match fp with
            | [] => None
            | _ => Some (fp, s2)
            end
          else Some ([], s1)
        | [] => Some ([], s1)
        end in
      match fracPart with
      | None => None
      | Some (fp, s2) =>
        let expPart :=
          match s2 with
          | c :: r =>
            if (c =? 101) || (c =? 69) then
              let (eneg, r1) :=
                match r with
                | sg :: r' =>
                  if sg =? 45 then (true, r')
                  else if sg =? 43 then (false, r')
                  else (false, r)
                | [] => (false, r)
                end in
              let (ep, s3) := spanDigits r1 in
              match ep with
              | [] => None
              | _ => Some ((if eneg then - digitsToZ ep else digitsToZ ep)%Z, s3)
              end
            else Some (0%Z, s2)
          | [] => Some (0%Z, s2)
          end in
        match expPart with
        | None => None
        | Some (ex, s3) =>
          let mant := digitsToZ (ip ++ fp) in
          Some (JNumber (if neg then - mant else mant)%Z
                        (ex - Z.of_nat (length fp))%Z, s3)
        end
      end
  end.

(** ** The grammar of values *)

Fixpoint parseValue (fuel : nat) (s : JSString) {struct fuel}
  : option (JSValue * JSString) :=
  match fuel with
  | O => None
  | S f =>
    match skipWs s with
    | [] => None
    | c :: rest =>
      if c =? 123 then                                   (* left brace *)
        match skipWs rest with
        | c' :: rest' =>
          if c' =? 125 then Some (JObject [], rest')
          else parseMembers f (c' :: rest') []
        | [] => None
        end
      else if c =? 91 then                               (* left bracket *)
        match skipWs rest with
        | c' :: rest' =>
          if c' =? 93 then Some (JArray [], rest')
          else parseElements f (c' :: rest') []
        | [] => None
        end
      else if c =? 34 then
        match parseStringBody rest [] with
        | Some (str, r) => Some (JString str, r)
        | None => None
        end
      else if startsWith (js "true") (c :: rest) then
        Some (JBool true, skipn 4 (c :: rest))
      else if startsWith (js "false") (c :: rest) then
        Some (JBool false, skipn 5 (c :: rest))
      else if startsWith (js "null") (c :: rest) then
        Some (JNull, skipn 4 (c :: rest))
      else parseNumber (c :: rest)
    end
  end
with parseElements (fuel : nat) (s : JSString) (acc : list JSValue)
  {struct fuel} : option (JSValue * JSString) :=
  match fuel with
  | O => None
  | S f =>
    match parseValue f s with
    | None => None
    | Some (v, r) =>
      match skipWs r with
      | c :: r' =>
        if c =? 44 then parseElements f r' (v :: acc)
        else if c =? 93 then Some (JArray (rev (v :: acc)), r')
        else None
      | [] => None
      end
    end
  end
with parseMembers (fuel : nat) (s : JSString) (acc : list (JSString * JSValue))
  {struct fuel} : option (JSValue * JSString) :=
  match fuel with
  | O => None
  | S f =>
    match skipWs s with
    | q :: s1 =>
      if q =? 34 then
        match parseStringBody s1 [] with
        | None => None
        | Some (key, s2) =>
          match skipWs s2 with
          | colon :: s3 =>
            if colon =? 58 then
              match parseValue f s3 with
              | None => None
              | Some (v, r) =>
                match skipWs r with
                | c :: r' =>
                  if c =? 44 then parseMembers f r' ((key, v) :: acc)
                  else if c =? 125 then
                    Some (JObject (rev ((key, v) :: acc)), r')
                  else None
                | [] => None
                end
              end
            else None
          | [] => None
          end
        end
      else None
    | [] => None
    end
  end.

Definition syntaxErrorMessage : JSString :=
  js "Unexpected token in JSON".

(** [JSON.parse(text)]: the value, or a [SyntaxError]. *)
Definition JSON_parse (text : JSString) : Completion JSValue :=
  match parseValue (2 * length text + 2) text with
  | Some (v, r) =>
    match skipWs r with
    | [] => Normal v
    | _ :: _ => Throw (ErrorObject syntaxErrorMessage)
    end
  | None => Throw (ErrorObject syntaxErrorMessage)
  end.

(** ** Reading a decoded value *)

(** The own property [k] of an object whose members were [props]: of two
    members with one key the later one stays. *)
Fixpoint getOwnProp (props : list (JSString * JSValue)) (k : JSString)
  : option JSValue :=
  match props with
  | [] => None
  | (k', v) :: rest =>
    match getOwnProp rest k with
    | Some v' => Some v'
    | None => if jsEqb k' k then Some v else None
    end
  end.

Definition nullReadMessage : JSString :=
  js "Cannot read properties of null".

(** [v.k] for a property name [k] that no built-in prototype defines
    ([error], [to], [networks], [explanation], [amount]): [None] is
    [undefined]; reading from [null] throws a [TypeError]. *)
Definition getProp (v : JSValue) (k : JSString)
  : Completion (option JSValue) :=
  match v with
  | JNull => Throw (ErrorObject nullReadMessage)
  | JObject props => Normal (getOwnProp props k)
  | _ => Normal None
  end.

(** Whether the double nearest to [m * 10^e] is zero: the exact value is
    zero, or it is at most [2^-1075], half the least positive double. *)
Definition roundsToZero (m e : Z) : bool :=
  ((m =? 0) ||
   if (0 <=? e) then false
   else (Z.abs m * 2 ^ 1075 <=? 10 ^ (- e)))%Z.

(** [ToBoolean] *)
Definition truthyValue (v : JSValue) : bool :=
  match v with
  | JNull => false
  | JBool b => b
  | JNumber m e => negb (roundsToZero m e)
  | JString s => negb (Nat.eqb (length s) 0)
  | JArray _ => true
  | JObject _ => true
  end.

Definition truthy (v : option JSValue) : bool :=
  match v with
  | Some x => truthyValue x
  | None => false
  end.

Definition toPrimitiveMessage : JSString :=
  js "Cannot convert object to primitive value".

Section Engine.
Context `{JSEngine}.

(** [ToString]: the string a decoded value is coerced to, by
    [RegExp.test] for its argument and by the concatenation with a
    string for its operand.  An array joins its elements with commas, a
    [null] element giving the empty string.  A decoded object prints as
    [[object Object]] unless a member named [toString] hides the
    inherited method: the member is no function, the inherited [valueOf]
    gives back the object, and the coercion throws. *)
Fixpoint ToString (v : JSValue) : Completion JSString :=
  match v with
  | JNull => Normal (js "null")
  | JBool true => Normal (js "true")
  | JBool false => Normal (js "false")
  | JNumber m e => Normal (NumberToString m e)
  | JString s => Normal s
  | JArray items =>
    (fix join (l : list JSValue) : Completion JSString :=
       match l with
       | [] => Normal []
       | x :: rest =>
         bindC (match x with
                | JNull => Normal []
                | _ => ToString x
                end)
               (fun sx =>
                  match rest with
                  | [] => Normal sx
                  | _ :: _ =>
                    bindC (join rest) (fun sr => Normal (sx ++ [44] ++ sr))
                  end)
       end) items
  | JObject props =>
    match getOwnProp props (js "toString") with
    | Some _ => Throw (ErrorObject toPrimitiveMessage)
    | None => Normal (js "[object Object]")
    end
  end.

(** [typeof v === 'string'], and the string *)
Definition asString (v : option JSValue) : option JSString :=
  match v with
  | Some (JString s) => Some s
  | _ => None
  end.

End Engine.

End Json.


(* ================================================================== *)
(** * The viem client library *)
(* ================================================================== *)

Module Viem.
Import Networks.

(** [privateKeyToAccount(privateKey)] *)
Record Account : Type := { address : JSString }.

(** [receipt.status] *)
Inductive ReceiptStatus : Type := success | reverted.

(** What the sources call in viem.  Every RPC call goes to the chain its
    client is bound to: it reads that chain's state and leaves a state
    behind (blocks are mined, the signer's balance moves), and it either
    returns or throws. *)
Class Client : Type := {
  ChainState : Type;
  parseEther : JSString -> Completion Z;
  formatEther : Z -> JSString;
  getBalance :
    PublicClient -> JSString -> ChainState -> Completion Z * ChainState;
  sendTransaction :
    WalletClient Account -> JSString -> Z -> option Chain ->
    ChainState -> Completion JSString * ChainState;
  getTransactionReceipt :
    PublicClient -> JSString -> ChainState ->
    Completion ReceiptStatus * ChainState
}.

(** The process: the account made from [WALLET_PRIVATE_KEY]. *)
Class Wallet : Type := { account : Account }.

Section Async.
Context `{Client}.

(** The chains the process talks to, by chain id. *)
Definition World : Type := Z -> ChainState.

Definition setChain (w : World) (i : Z) (s : ChainState) : World :=
  fun j => if (j =? i)%Z then s else w j.

(** An [async] function: it runs from a world, awaits one call after
    the other and ends in a world, fulfilled or rejected. *)
Definition Async (A : Type) : Type := World -> Completion A * World.

Definition ret {A} (a : A) : Async A := fun w => (Normal a, w).

Definition throwA {A} (e : Thrown) : Async A := fun w => (Throw e, w).

Definition liftC {A} (c : Completion A) : Async A := fun w => (c, w).

Definition bind {A B} (m : Async A) (k : A -> Async B) : Async B :=
  fun w =>
    match m w with
    | (Normal a, w') => k a w'
    | (Throw e, w') => (Throw e, w')
    end.

(** [try { await body } catch (error) { handler }] *)
Definition tryCatchA {A} (body : Async A) (handler : Thrown -> Async A)
  : Async A :=
  fun w =>
    match body w with
    | (Normal a, w') => (Normal a, w')
    | (Throw e, w') => handler e w'
    end.

(** [await] of a call made through a client bound to chain [c]. *)
Definition rpc {A} (c : Chain)
  (call : ChainState -> Completion A * ChainState) : Async A :=
  fun w =>
    let (r, s') := call (w (chain_id c)) in
    (r, setChain w (chain_id c) s').

(** A computation confined to chain [i]: it leaves every other chain as
    it was, and what it returns and what it leaves of chain [i] depend
    on nothing but the state of chain [i]. *)
Definition Confined {A} (i : Z) (m : Async A) : Prop :=
  (forall w j, j <> i -> snd (m w) j = w j) /\
  (forall w1 w2, w1 i = w2 i ->
     fst (m w1) = fst (m w2) /\ snd (m w1) i = snd (m w2) i).

End Async.

(** The four states a transaction is reported in. *)
Inductive TxStatus : Type := Success | Failed | Pending | Unknown.

Definition isPending (s : TxStatus) : bool :=
  match s with
  | Pending => true
  | _ => false
  end.

End Viem.

Declare Scope async_scope.
Delimit Scope async_scope with async.
Notation "x <- m ;; k" := (Viem.bind m (fun x => k))
  (at level 61, m at next level, right associativity) : async_scope.

(* ================================================================== *)
(** * The multi-network faucet *)
(* ================================================================== *)

Module Faucet.
Import Networks Json Viem.

Section Faucet.
Context `{JSEngine} `{ViemChains} `{Client} `{Wallet}.

(** ** Network selection *)

Definition getNetworksFromInput (input : JSString) : list JSString :=
  let inputLower := toLowerCase input in
  let availableNetworks := getAvailableNetworks in
  if includes inputLower (js "both") || includes inputLower (js "all")
  then availableNetworks
  else filter (fun network => includes inputLower (toLowerCase network))
              availableNetworks.

(** ** Parsing the model's response *)

(** The length of the match of the fence pattern at the start of [s], or
    zero when it does not match there.  The pattern is an alternation:
    three backticks and [json], then an optional line feed; or an
    optional line feed, then three backticks.  The first alternative is
    tried first and the optional line feed is taken when it is there. *)
Definition fenceMatch (s : JSString) : nat :=
  if startsWith (js "```json") s then
    if startsWith (js "```json" ++ [10]) s then 8%nat else 7%nat
  else if startsWith (10 :: js "```") s then 4%nat
  else if startsWith (js "```") s then 3%nat
  else 0%nat.

(** The global replace by the empty string: at each position from left
    to right, a match is dropped and the scan goes on behind it; a code
    unit where nothing matches is kept.  [skip] counts the code units of
    the current match still to drop. *)
Fixpoint replaceFrom (skip : nat) (s : JSString) : JSString :=
  match s with
  | [] => []
  | c :: rest =>
    match skip with
    | S k => replaceFrom k rest
    | O =>
      match fenceMatch s with
      | O => c :: replaceFrom 0 rest
      | S k => replaceFrom k rest
      end
    end
  end.

Definition replaceFences (s : JSString) : JSString := replaceFrom 0 s.

(** [response.replace(fences, '').trim()] *)
Definition cleanResponse (response : JSString) : JSString :=
  trim (replaceFences response).

Definition isHexDigit (c : N) : bool :=
  ((48 <=? c) && (c <=? 57)) || ((97 <=? c) && (c <=? 102)) ||
  ((65 <=? c) && (c <=? 70)).

(** The address pattern with its [i] flag, anchored at both ends: a
    zero, an [x] of either case, forty hexadecimal digits. *)
Definition testAddress (s : JSString) : bool :=
  match s with
  | c0 :: c1 :: digits =>
    (c0 =? 48) && ((c1 =? 120) || (c1 =? 88)) &&
    Nat.eqb (length digits) 40 && forallb isHexDigit digits
  | _ => false
  end.

Definition understandingMessage : JSString :=
  js "AI could not understand the request".
Definition missingFieldsMessage : JSString :=
  js "Missing required fields in response".
Definition invalidAddressMessage : JSString :=
  js "Invalid Ethereum address format".
Definition failedToParseMessage : JSString :=
  js "Failed to parse AI response. Please try again with a simpler request.".

(** The two ways [parseAIResponse] fails. *)
Definition UnderstandingFailure : Thrown := ErrorObject understandingMessage.
Definition MalformedResponse : Thrown := ErrorObject failedToParseMessage.

(** The operand [parsed.error] of the concatenation in the line printed
    before the understanding failure is thrown: the member is coerced
    to a string, which throws for a value that has no primitive.  The
    branch is entered for a truthy member only, so the member is
    there. *)
Definition errorText (error : option JSValue) : Completion JSString :=
  match error with
  | Some v => ToString v
  | None => Normal (js "undefined")
  end.

(** The checks of the [try] block on the decoded value.  On a truthy
    [error] member the line for the console is built first, and the
    understanding failure is thrown once it is printed. *)
Definition checkParsed (parsed : JSValue) : Completion JSValue :=
  bindC (getProp parsed (js "error")) (fun error =>
  if truthy error then
    bindC (errorText error) (fun line =>
    Throw (ErrorObject understandingMessage))
  else
    bindC (getProp parsed (js "to")) (fun to =>
    bindC (getProp parsed (js "networks")) (fun networks =>
    bindC (getProp parsed (js "explanation")) (fun explanation =>
    if negb (truthy to) || negb (truthy networks) || negb (truthy explanation)
    then Throw (ErrorObject missingFieldsMessage)
    else
      bindC (match to with
             | Some v => ToString v
             | None => Normal (js "undefined")
             end) (fun toText =>
      if negb (testAddress toText)
      then Throw (ErrorObject invalidAddressMessage)
      else Normal parsed))))).

(** The [try] block. *)
Definition parseBody (response : JSString) : Completion JSValue :=
  bindC (JSON_parse (cleanResponse response)) checkParsed.

(** The [catch] block: the understanding failure goes through as it is,
    anything else becomes the parse failure. *)
Definition parseHandler (error : Thrown) : Completion JSValue :=
  match error with
  | ErrorObject message =>
    if jsEqb message understandingMessage then Throw error
    else Throw (ErrorObject failedToParseMessage)
  | OtherValue _ => Throw (ErrorObject failedToParseMessage)
  end.

Definition parseAIResponse (response : JSString) : Completion JSValue :=
  tryCatch (parseBody response) parseHandler.

(** *** Notions for stating what the parser does *)

(** The member [k] of a decoded object; nothing for any other value. *)
Definition field (v : JSValue) (k : JSString) : option JSValue :=
  match v with
  | JObject props => getOwnProp props k
  | _ => None
  end.

(** Whether the address test accepts a recipient: the value is there,
    its coercion to a string returns, and the string matches. *)
Definition addressAccepted (to : option JSValue) : bool :=
  match to with
  | Some v =>
    match ToString v with
    | Normal text => testAddress text
    | Throw _ => false
    end
  | None => false
  end.

(** Whether the [error] member can be printed: its coercion to a
    string returns. *)
Definition printable (error : option JSValue) : bool :=
  match errorText error with
  | Normal _ => true
  | Throw _ => false
  end.


(** What [parseAIResponse] gives on a response that decodes to [v]. *)
Definition parseDecoded (v : JSValue) : Completion JSValue :=
  tryCatch (checkParsed v) parseHandler.

(** A payload in a fenced code block: the opening fence with its
    language tag, a line feed, the payload, a line feed, the closing
    fence. *)
Definition fenced (payload : JSString) : JSString :=
  js "```json" ++ 10 :: payload ++ 10 :: js "```".

(** ** Dispatch *)

Local Open Scope async_scope.

Definition notConfiguredMessage (networkName : JSString) : JSString :=
  js "Network " ++ networkName ++ js " not configured".

Definition drainedMessage (networkName balanceText symbolText : JSString)
  : JSString :=
  js "Faucet is currently drained for " ++ networkName ++
  js ". We will refill it soon. " ++
  js "Current balance: " ++ balanceText ++ js " " ++ symbolText.

Definition notAFunctionMessage : JSString :=
  js "network.walletClient is not a function".
Definition undefinedReadMessage : JSString :=
  js "Cannot read properties of undefined (reading 'getTransactionReceipt')".

Definition makeTransaction (to amount networkName : JSString)
  : Async JSString :=
  match getNetwork networkName with
  | Undefined => throwA (ErrorObject (notConfiguredMessage networkName))
  | Inherited _ =>
    (* not falsy; it has no [publicClient], and calling its
       [walletClient] throws a [TypeError] *)
    throwA (ErrorObject notAFunctionMessage)
  | Own network =>
    let pc := publicClient network in
    let wc := walletClient network account in
    balance <- rpc (pc_chain pc) (getBalance pc (address account)) ;;
    value <- liftC (parseEther amount) ;;
    if (balance <? value)%Z then
      throwA (ErrorObject
        (drainedMessage networkName (formatEther balance)
                        (symbol (faucet network))))
    else
      rpc (wc_chain wc) (sendTransaction wc to value (Some (chain network)))
  end.

(** The [catch] block of [getTransactionStatus]. *)
Definition statusHandler (error : Thrown) : TxStatus :=
  match error with
  | ErrorObject message =>
    if includes message (js "could not be found") then Pending else Unknown
  | OtherValue _ => Unknown
  end.

Definition getTransactionStatus (hash networkName : JSString)
  : Async TxStatus :=
  match getNetwork networkName with
  | Undefined => throwA (ErrorObject (notConfiguredMessage networkName))
  | Inherited _ =>
    (* [network.publicClient] is [undefined]: the [TypeError] is thrown
       inside the [try] *)
    ret (statusHandler (ErrorObject undefinedReadMessage))
  | Own network =>
    let pc := publicClient network in
    tryCatchA
      (receipt <- rpc (pc_chain pc) (getTransactionReceipt pc hash) ;;
       ret (match receipt with
            | success => Success
            | reverted => Failed
            end))
      (fun error => ret (statusHandler error))
  end.

Record NetworkRequest : Type := {
  req_name : JSString;
  req_amount : JSString;
  req_symbol : JSString
}.

Inductive Outcome : Type :=
| Sent (hash : JSString) (status : TxStatus)
| NotSent (error : JSString).

Record DispatchResult : Type := {
  network : JSString;
  result : Outcome
}.

(** One turn of the loop: the [try] with its [catch]. *)
Definition dispatchOne (to : JSString) (request : NetworkRequest)
  : Async DispatchResult :=
  let name := req_name request in
  let amount := req_amount request in
  tryCatchA
    (hash <- makeTransaction to amount name ;;
     status <- getTransactionStatus hash name ;;
     ret {| network := name; result := Sent hash status |})
    (fun error =>
       ret {| network := name; result := NotSent (messageOf error) |}).

(** The [for ... of] loop over [networkConfigs], [results] growing by
    one [push] a turn. *)
Fixpoint dispatchLoop (to : JSString) (results : list DispatchResult)
  (networkConfigs : list NetworkRequest) : Async (list DispatchResult) :=
  match networkConfigs with
  | [] => ret results
  | request :: rest =>
    r <- dispatchOne to request ;;
    dispatchLoop to (results ++ [r]) rest
  end.

Definition makeMultipleTransactions (to : JSString)
  (networkConfigs : list NetworkRequest) : Async (list DispatchResult) :=
  dispatchLoop to [] networkConfigs.

(** The id of the chain a request for [networkName] is sent to, if the
    name is a key of the registry. *)
Definition chainOf (networkName : JSString) : option Z :=
  match getNetwork networkName with
  | Own cfg => Some (chain_id (chain cfg))
  | _ => None
  end.

Definition onChain (c : Z) (networkName : JSString) : bool :=
  match chainOf networkName with
  | Some i => (i =? c)%Z
  | None => false
  end.

(** ** Start-up and the catalog given to the model *)

(** The key pattern, anchored at both ends and without flag: a zero, a
    lower-case [x], sixty-four hexadecimal digits. *)
Definition testPrivateKey (s : JSString) : bool :=
  match s with
  | c0 :: c1 :: digits =>
    (c0 =? 48) && (c1 =? 120) &&
    Nat.eqb (length digits) 64 && forallb isHexDigit digits
  | _ => false
  end.

Definition invalidKeyMessage : JSString :=
  js "Invalid private key format. It must be a hex string starting with "
  ++ 34 :: js "0x" ++ 34 :: js " and 64 characters long.".

(** The check made when the module is loaded, on the value of
    [WALLET_PRIVATE_KEY] in the environment; a variable that is not set
    is tested as the text [undefined].  The key is what the account is
    made from. *)
Definition loadPrivateKey (env : option JSString) : Completion JSString :=
  let privateKey :=
    match env with
    | Some s => s
    | None => js "undefined"
    end in
  if negb (testPrivateKey privateKey)
  then Throw (ErrorObject invalidKeyMessage)
  else Normal privateKey.

Record CatalogEntry : Type := {
  cat_name : JSString;
  cat_symbol : JSString;
  cat_amount : JSString
}.

(** The first statement of [getAIResponse]: the entries of [networks]
    mapped to name, faucet symbol and faucet amount, for the prompt. *)
Definition networkConfigs : list CatalogEntry :=
  List.map (fun '(name, config) =>
              {| cat_name := name;
                 cat_symbol := symbol (faucet config);
                 cat_amount := amount (faucet config) |})
           networks.

End Faucet.

End Faucet.

(* ================================================================== *)
(** * The single-network agent, [src/index.ts] *)
(* ================================================================== *)

Module Agent.
Import Networks Json Viem.

Record Intent : Type := {
  to : JSString;
  amount : JSString;
  explanation : JSString
}.

(** ** The patterns of [parseAIResponse] *)

Definition lower (c : N) : N :=
  if (65 <=? c) && (c <=? 90) then c + 32 else c.

(** Whether all of [s] is white space, [ETH] in any case, white space. *)
Definition isEthSuffix (s : JSString) : bool :=
  match trimStart s with
  | e :: t :: h :: rest =>
    (lower e =? 101) && (lower t =? 116) && (lower h =? 104) &&
    forallb isWhiteSpace rest
  | _ => false
  end.

(** [amount.replace(pattern, '')] for the pattern that matches white
    space, [ETH] in any case and white space at the end of the input:
    the leftmost match is dropped. *)
Fixpoint stripEthSuffix (s : JSString) : JSString :=
  if isEthSuffix s then []
  else
    match s with
    | [] => []
    | c :: rest => c :: stripEthSuffix rest
    end.

Fixpoint takeWhile (p : N -> bool) (s : JSString) : JSString :=
  match s with
  | c :: rest => if p c then c :: takeWhile p rest else []
  | [] => []
  end.

Fixpoint dropWhile (p : N -> bool) (s : JSString) : JSString :=
  match s with
  | c :: rest => if p c then dropWhile p rest else s
  | [] => []
  end.

(** [s.match(pattern)]: the capture of the leftmost position where the
    pattern [matchAt] matches. *)
Fixpoint firstMatch (matchAt : JSString -> option JSString) (s : JSString)
  : option JSString :=
  match matchAt s with
  | Some capture => Some capture
  | None =>
    match s with
    | [] => None
    | _ :: rest => firstMatch matchAt rest
    end
  end.

(** A label, white space, then one or more code units of a class: the
    capture is the longest run of the class. *)
Definition labelled (label : JSString) (class : N -> bool) (s : JSString)
  : option JSString :=
  if startsWith label s then
    match takeWhile class (dropWhile isWhiteSpace (skipn (length label) s)) with
    | [] => None
    | capture => Some capture
    end
  else None.

(** The class of the recipient pattern: digits, [a] to [f] in either
    case, and [x]. *)
Definition isToChar (c : N) : bool :=
  ((48 <=? c) && (c <=? 57)) || ((97 <=? c) && (c <=? 102)) ||
  ((65 <=? c) && (c <=? 70)) || (c =? 120).

(** The class of the amount pattern: digits and the point. *)
Definition isAmountChar (c : N) : bool :=
  ((48 <=? c) && (c <=? 57)) || (c =? 46).

Definition isLineTerminator (c : N) : bool :=
  (c =? 10) || (c =? 13) || (c =? 8232) || (c =? 8233).

Definition notLineTerminator (c : N) : bool := negb (isLineTerminator c).

(** The explanation pattern: its label, white space, then one or more
    code units other than line terminators.  When the white space runs
    to the end of the input, the matcher gives white space back: the
    capture is then the last code unit of the run that is no line
    terminator, if there is one. *)
Definition explanationAt (s : JSString) : option JSString :=
  if startsWith (js "explanation:") s then
    let r := skipn 12 s in
    match dropWhile isWhiteSpace r with
    | c :: rest => Some (takeWhile notLineTerminator (c :: rest))
    | [] =>
      match find notLineTerminator (rev (takeWhile isWhiteSpace r)) with
      | Some c => Some [c]
      | None => None
      end
    end
  else None.

Definition toMatch (response : JSString) : option JSString :=
  firstMatch (labelled (js "to:") isToChar) response.
Definition amountMatch (response : JSString) : option JSString :=
  firstMatch (labelled (js "amount:") isAmountChar) response.
Definition explanationMatch (response : JSString) : option JSString :=
  firstMatch explanationAt response.

Definition invalidStructureMessage : JSString :=
  js "Invalid response structure".
Definition failedToParseMessage : JSString :=
  js "Failed to parse AI response".

Definition MalformedResponse : Thrown := ErrorObject failedToParseMessage.

(** The [try] block: the structured decoding. *)
Definition parseBody (response : JSString) : Completion Intent :=
  bindC (JSON_parse response) (fun parsed =>
  bindC (getProp parsed (js "to")) (fun pto =>
  bindC (getProp parsed (js "amount")) (fun pamount =>
  bindC (getProp parsed (js "explanation")) (fun pexplanation =>
  match asString pto, asString pamount, asString pexplanation with
  | Some t, Some a, Some e =>
    Normal {| to := t; amount := stripEthSuffix a; explanation := e |}
  | _, _, _ => Throw (ErrorObject invalidStructureMessage)
  end)))).

(** The [catch] block: the three patterns on the raw response. *)
Definition regexFallback (response : JSString) : option Intent :=
  match toMatch response, amountMatch response, explanationMatch response with
  | Some t, Some a, Some e =>
    Some {| to := t; amount := a; explanation := trim e |}
  | _, _, _ => None
  end.

Definition parseAIResponse (response : JSString) : Completion Intent :=
  tryCatch (parseBody response)
    (fun _ =>
       match regexFallback response with
       | Some intent => Normal intent
       | None => Throw (ErrorObject failedToParseMessage)
       end).

(** ** The transaction and its status *)

Section Agent.
Context `{ViemChains} `{Client} `{Wallet}.

Local Open Scope async_scope.

(** The module-level clients, both on Sepolia. *)
Definition publicClient : PublicClient := createPublicClient sepolia.
Definition walletClient : WalletClient Account :=
  createWalletClient account sepolia.

Definition insufficientFundsMessage (balanceText amountText : JSString)
  : JSString :=
  js "Insufficient funds. Balance: " ++ balanceText ++
  js " ETH, Trying to send: " ++ amountText ++ js " ETH".

Definition makeTransaction (to amount : JSString) : Async JSString :=
  balance <- rpc (pc_chain publicClient)
                 (getBalance publicClient (address account)) ;;
  value <- liftC (parseEther amount) ;;
  if (balance <? value)%Z then
    throwA (ErrorObject
      (insufficientFundsMessage (formatEther balance) amount))
  else
    rpc (wc_chain walletClient) (sendTransaction walletClient to value None).

Definition statusHandler (error : Thrown) : TxStatus :=
  match error with
  | ErrorObject message =>
    if includes message (js "could not be found") then Pending else Unknown
  | OtherValue _ => Unknown
  end.

Definition getTransactionStatus (hash : JSString) : Async TxStatus :=
  tryCatchA
    (receipt <- rpc (pc_chain publicClient)
                    (getTransactionReceipt publicClient hash) ;;
     ret (match receipt with
          | success => Success
          | reverted => Failed
          end))
    (fun error => ret (statusHandler error)).

(** ** The polling part of [main] *)

(** What [main] prints about a submitted transaction. *)
Inductive ConsoleLine : Type :=
| InitialStatus (status : TxStatus)
| UpdatedStatus (status : TxStatus)
| Completed.

(** The period given to [setInterval], in milliseconds. *)
Definition pollInterval : Z := 5000.

(** A call of the timer's callback that has not printed yet: its
    request is with the node, or the node has answered and the answer
    is on its way back. *)
Inductive Lookup : Type :=
| Asked
| Answered (status : TxStatus).

(** The timer of [main]: the time of its last expiry, counted from the
    call of [setInterval]; whether the interval is still set; the
    variable [status]; the times at which the callback was called; the
    calls that are under way, the oldest first; the lines printed so
    far. *)
Record Poller : Type := {
  elapsed : Z;
  intervalSet : bool;
  status : TxStatus;
  launches : list Z;
  underWay : list Lookup;
  console : list ConsoleLine
}.

(** [let status = await getTransactionStatus(hash)], its line on the
    console, and [setInterval(callback, 5000)]. *)
Definition startPolling (hash : JSString) (w : World) : Poller * World :=
  match getTransactionStatus hash w with
  | (Normal s, w') =>
    ({| elapsed := 0; intervalSet := true; status := s;
        launches := []; underWay := [];
        console := [InitialStatus s] |}, w')
  | (Throw _, w') =>
    ({| elapsed := 0; intervalSet := false; status := Unknown;
        launches := []; underWay := [];
        console := [] |}, w')
  end.

(** What happens once the interval is set.  [setInterval] does not wait
    for the promise an [async] callback returns: the timer expires
    every period whether or not earlier calls have answered, so several
    calls may be under way, and the node may answer them, and the
    answers may come back, in any order.  [i] counts the calls under
    way from the oldest. *)
Inductive Event : Type :=
| TimerExpires
| NodeAnswers (i : nat)
| AnswerArrives (i : nat).

(** The calls under way with the status [s] put on call [i]. *)
Fixpoint answer (i : nat) (s : TxStatus) (calls : list Lookup)
  : list Lookup :=
  match calls, i with
  | [], _ => []
  | _ :: rest, O => Answered s :: rest
  | call :: rest, S j => call :: answer j s rest
  end.

(** The calls under way without call [i]. *)
Fixpoint finish (i : nat) (calls : list Lookup) : list Lookup :=
  match calls, i with
  | [], _ => []
  | _ :: rest, O => rest
  | call :: rest, S j => call :: finish j rest
  end.

(** One event.  An expiry while the interval is set calls the callback,
    which sends its request and waits; after [clearInterval] an expiry
    is only time that passes.  The node answers a request from the
    state the chain is in at that moment.  When an answer comes back
    the callback goes on without interruption: it assigns [status],
    prints it, and on a status other than [Pending] clears the interval
    and prints the completion; a callback whose lookup rejected would
    end there.  An event that cannot happen (no such call, a call not
    yet or already answered) leaves everything as it is. *)
Definition onEvent (hash : JSString) (e : Event) (pw : Poller * World)
  : Poller * World :=
  let (p, w) := pw in
  match e with
  | TimerExpires =>
    let t := (elapsed p + pollInterval)%Z in
    if intervalSet p then
      ({| elapsed := t; intervalSet := true; status := status p;
          launches := launches p ++ [t];
          underWay := underWay p ++ [Asked];
          console := console p |}, w)
    else
      ({| elapsed := t; intervalSet := false; status := status p;
          launches := launches p; underWay := underWay p;
          console := console p |}, w)
  | NodeAnswers i =>
    match nth_error (underWay p) i with
    | Some Asked =>
      match getTransactionStatus hash w with
      | (Normal s, w') =>
        ({| elapsed := elapsed p; intervalSet := intervalSet p;
            status := status p; launches := launches p;
            underWay := answer i s (underWay p);
            console := console p |}, w')
      | (Throw _, w') =>
        ({| elapsed := elapsed p; intervalSet := intervalSet p;
            status := status p; launches := launches p;
            underWay := finish i (underWay p);
            console := console p |}, w')
      end
    | _ => (p, w)
    end
  | AnswerArrives i =>
    match nth_error (underWay p) i with
    | Some (Answered s) =>
      if isPending s then
        ({| elapsed := elapsed p; intervalSet := intervalSet p;
            status := s; launches := launches p;
            underWay := finish i (underWay p);
            console := console p ++ [UpdatedStatus s] |}, w)
      else
        ({| elapsed := elapsed p; intervalSet := false;
            status := s; launches := launches p;
            underWay := finish i (underWay p);
            console := console p ++ [UpdatedStatus s; Completed] |}, w)
    | _ => (p, w)
    end
  end.

(** The events of a run, one after the other. *)
Fixpoint run (hash : JSString) (events : list Event) (pw : Poller * World)
  : Poller * World :=
  match events with
  | [] => pw
  | e :: rest => run hash rest (onEvent hash e pw)
  end.

(** The run in which every call is answered, and its answer comes back,
    before the timer expires again: [n] periods. *)
Fixpoint promptly (n : nat) : list Event :=
  match n with
  | O => []
  | S k => TimerExpires :: NodeAnswers 0 :: AnswerArrives 0 :: promptly k
  end.

(** *** Notions for stating what the timer does *)

(** The status one lookup gives in world [w], and the world after it. *)
Definition lookup (hash : JSString) (w : World) : TxStatus * World :=
  match getTransactionStatus hash w with
  | (Normal s, w') => (s, w')
  | (Throw _, w') => (Unknown, w')
  end.

(** The world after [k] lookups, one after the other. *)
Fixpoint afterLookups (hash : JSString) (k : nat) (w : World) : World :=
  match k with
  | O => w
  | S k' => afterLookups hash k' (snd (lookup hash w))
  end.

(** The status the lookup number [k] gives, counting from zero. *)
Definition nthStatus (hash : JSString) (k : nat) (w : World) : TxStatus :=
  fst (lookup hash (afterLookups hash k w)).

(** The first [n] multiples of the period. *)
Definition expiries (n : nat) : list Z :=
  map (fun k => (pollInterval * Z.of_nat k)%Z) (seq 1 n).

(** The statuses the callbacks have printed, in the order printed. *)
Definition printed (lines : list ConsoleLine) : list TxStatus :=
  flat_map (fun line =>
              match line with
              | UpdatedStatus s => [s]
              | _ => []
              end) lines.

(** The statuses that are on their way back to a callback. *)
Definition answered (calls : list Lookup) : list TxStatus :=
  flat_map (fun call =>
              match call with
              | Answered s => [s]
              | Asked => []
              end) calls.

(** The answers the callbacks got or will get: the statuses of the
    lookups number 1 to [n], the first lookup being number 0. *)
Definition answers (hash : JSString) (w0 : World) (n : nat)
  : list TxStatus :=
  map (fun k => nthStatus hash k w0) (seq 1 n).

(** Whether the lines are those of callbacks, each printing in one go:
    a [Pending] status alone; any other status, and the completion
    right after it.  No completion stands anywhere else. *)
Fixpoint callbackLines (lines : list ConsoleLine) : bool :=
  match lines with
  | [] => true
  | UpdatedStatus s :: rest =>
    if isPending s then callbackLines rest
    else
      match rest with
      | Completed :: rest' => callbackLines rest'
      | _ => false
      end
  | _ => false
  end.

(** The timer in a state that events can lead to from a first lookup
    made in world [w0]: what is on the console, which calls are under
    way, which lookups the chain has answered. *)
Definition Consistent (hash : JSString) (w0 : World) (pw : Poller * World)
  : Prop :=
  launches (fst pw) = expiries (length (launches (fst pw))) /\
  (pollInterval * Z.of_nat (length (launches (fst pw))) <= elapsed (fst pw))%Z /\
  (intervalSet (fst pw) = true ->
   elapsed (fst pw) =
   (pollInterval * Z.of_nat (length (launches (fst pw))))%Z) /\
  exists body n,
    console (fst pw) = InitialStatus (nthStatus hash 0 w0) :: body /\
    callbackLines body = true /\
    intervalSet (fst pw) = forallb isPending (printed body) /\
    (length (printed body) + length (underWay (fst pw)))%nat
      = length (launches (fst pw)) /\
    Permutation (printed body ++ answered (underWay (fst pw)))
                (answers hash w0 n) /\
    snd pw = afterLookups hash (S n) w0.

End Agent.

End Agent.

(* ================================================================== *)
(** * A reference engine, library and world *)
(* ================================================================== *)

(** Instances of the interfaces above, to run the embedded functions on
    concrete inputs.  They follow the documented behaviour of the
    engine and of viem on the inputs used here; no general statement
    below depends on them. *)
Module Reference.
Import Networks Json Viem.

(** Lower-casing of one code unit: the Latin letters below 256, the
    Kelvin sign, and the capital I with dot, which lower-cases to two
    code units.  Other code units are left as they are. *)
Definition lowerUnit (c : N) : JSString :=
  if (65 <=? c) && (c <=? 90) then [c + 32]
  else if (192 <=? c) && (c <=? 222) && negb (c =? 215) then [c + 32]
  else if c =? 8490 then [107]
  else if c =? 304 then [105; 775]
  else [c].

Definition decimalOfN (n : N) : JSString :=
  js (DecimalString.NilZero.string_of_uint (N.to_uint n)).

Definition repeatUnit (c : N) (n : nat) : JSString := repeat c n.

(** The decimal expansion of [m * 10^e], which is what the engine
    prints for the integers and short decimals used here. *)
Definition decimalToString (m e : Z) : JSString :=
  let sign := if (m <? 0)%Z then js "-" else [] in
  let digits := decimalOfN (Z.to_N (Z.abs m)) in
  if (m =? 0)%Z then js "0"
  else if (0 <=? e)%Z then sign ++ digits ++ repeatUnit 48 (Z.to_nat e)
  else
    let k := Z.to_nat (- e) in
    let padded := repeatUnit 48 (S k - length digits) ++ digits in
    sign ++ firstn (length padded - k) padded ++ js "." ++
    skipn (length padded - k) padded.

Definition engine : JSEngine := {|
  toLowerCase := flat_map lowerUnit;
  NumberToString := decimalToString
|}.

Definition mkChain (i : Z) (n sym : String.string) : Chain := {|
  chain_id := i;
  chain_name := js n;
  nativeCurrency := {| decimals := 18%Z;
                       currency_name := js sym;
                       currency_symbol := js sym |};
  rpcUrl := [];
  testnet := true
|}.
Arguments mkChain i%_Z n%_string_scope sym%_string_scope.

Definition chains : ViemChains := {|
  sepolia := mkChain 11155111 "Sepolia" "ETH";
  abstractTestnet := mkChain 11124 "Abstract Testnet" "ETH";
  optimismSepolia := mkChain 11155420 "OP Sepolia" "ETH";
  polygon := mkChain 137 "Polygon" "POL"
|}.

Definition stripTrailingZeros (s : JSString) : JSString :=
  rev (Agent.dropWhile (fun c => c =? 48) (rev s)).

(** [formatUnits(value, decimals)] *)
Definition formatUnits (value : Z) (decimals : nat) : JSString :=
  let digits := decimalOfN (Z.to_N (Z.abs value)) in
  let display := repeatUnit 48 (decimals - length digits) ++ digits in
  let integer := firstn (length display - decimals) display in
  let fraction :=
    stripTrailingZeros (skipn (length display - decimals) display) in
  (if (value <? 0)%Z then js "-" else []) ++
  (match integer with [] => js "0" | _ => integer end) ++
  (match fraction with [] => [] | _ => js "." ++ fraction end).

(** [parseUnits(value, decimals)] on the amounts used below: digits,
    then at most [decimals] digits after a point.  It stands for viem
    on such texts only; a longer fraction is cut here, where viem
    rounds. *)
Definition parseUnits (value : JSString) (decimals : nat) : Completion Z :=
  let (negative, body) :=
    match value with
    | c :: r => if c =? 45 then (true, r) else (false, value)
    | [] => (false, value)
    end in
  let (integer, r1) := spanDigits body in
  let wellFormed :=
    match r1 with
    | [] => Some []
    | c :: r2 =>
      if c =? 46 then
        let (fraction, r3) := spanDigits r2 in
        match r3 with [] => Some fraction | _ :: _ => None end
      else None
    end in
  match wellFormed with
  | None => Throw (ErrorObject (js "Number is not a valid decimal number."))
  | Some fraction =>
    let f := firstn decimals (stripTrailingZeros fraction) in
    let f' := f ++ repeatUnit 48 (decimals - length f) in
    let magnitude := digitsToZ (integer ++ f') in
    Normal (if negative then - magnitude else magnitude)%Z
  end.

(** A chain as the reference world sees it: the signer's balance in
    wei, whether the endpoint answers, how many receipt lookups will
    still find nothing, whether the mined transaction reverts, and the
    number of transactions sent. *)
Record RefChain : Type := {
  balance : Z;
  online : bool;
  lookupsUntilMined : nat;
  reverts : bool;
  nonce : N
}.

Definition requestFailed : Thrown := ErrorObject (js "HTTP request failed.").
Definition receiptNotFound : Thrown :=
  ErrorObject (js "Transaction receipt could not be found. The Transaction may not be processed on a block yet.").

Definition client : Client := {|
  ChainState := RefChain;
  parseEther := fun value => parseUnits value 18;
  formatEther := fun value => formatUnits value 18;
  getBalance := fun _ _ st =>
    if online st then (Normal (balance st), st) else (Throw requestFailed, st);
  sendTransaction := fun _ _ value _ st =>
    if online st then
      (Normal (js "0x" ++ decimalOfN (nonce st)),
       {| balance := balance st - value; online := true;
          lookupsUntilMined := lookupsUntilMined st;
          reverts := reverts st; nonce := nonce st + 1 |})
    else (Throw requestFailed, st);
  getTransactionReceipt := fun _ _ st =>
    if online st then
      match lookupsUntilMined st with
      | S k =>
        (Throw receiptNotFound,
         {| balance := balance st; online := true; lookupsUntilMined := k;
            reverts := reverts st; nonce := nonce st |})
      | O => (Normal (if reverts st then reverted else success), st)
      end
    else (Throw requestFailed, st)
|}.

Definition wallet : Wallet :=
  {| account := {| address := js "0x2d6DA915F00dcA50b06a60fca010949382f4e0e8" |} |}.

(** A world in which every chain answers, holds one ether for the
    signer and mines a transaction after [k] empty lookups. *)
Definition funded (k : nat) : @World client :=
  fun _ => {| balance := 1000000000000000000; online := true;
              lookupsUntilMined := k; reverts := false; nonce := 0 |}.

(** A world in which the signer holds nothing anywhere. *)
Definition drained : @World client :=
  fun _ => {| balance := 0; online := true;
              lookupsUntilMined := 0; reverts := false; nonce := 0 |}.

(** A world in which Polygon is drained and the Sepolia endpoint is
    down; the other chains are funded. *)
Definition mixed : @World client :=
  fun i =>
    if (i =? 137)%Z then drained i
    else if (i =? 11155111)%Z then
      {| balance := 1000000000000000000; online := false;
         lookupsUntilMined := 0; reverts := false; nonce := 0 |}
    else funded 1 i.

Definition recipient : JSString :=
  js "0x2d6DA915F00dcA50b06a60fca010949382f4e0e8".

(** A literal in which an apostrophe stands for a quotation mark. *)
Definition jsq (s : String.string) : JSString :=
  List.map (fun c => if c =? 39 then 34 else c) (js s).
Arguments jsq s%_string_scope.

(** A well-formed response of the model. *)
Definition wellFormedResponse : JSString :=
  jsq "{'to': '0x2d6DA915F00dcA50b06a60fca010949382f4e0e8', 'networks': [{'name': 'sepolia', 'amount': '0.01', 'symbol': 'ETH'}], 'explanation': 'Sending test tokens on sepolia'}".

(** The same with a recipient that is no hexadecimal string. *)
Definition badRecipientResponse : JSString :=
  jsq "{'to': '0xZZZZA915F00dcA50b06a60fca010949382f4e0e8', 'networks': [{'name': 'sepolia', 'amount': '0.01', 'symbol': 'ETH'}], 'explanation': 'Sending test tokens on sepolia'}".

(** A bad recipient beside the signal that the request was not
    understood. *)
Definition badRecipientWithError : JSString :=
  jsq "{'error': 'unclear', 'to': '0xZZZZA915F00dcA50b06a60fca010949382f4e0e8', 'networks': [], 'explanation': 'x'}".

(** A well-formed response but for three backticks inside the
    recipient, and the recipient as it stands in that response. *)
Definition markedRecipient : JSString :=
  js "0x```2d6DA915F00dcA50b06a60fca010949382f4e0e8".
Definition markedRecipientResponse : JSString :=
  jsq "{'to': '0x```2d6DA915F00dcA50b06a60fca010949382f4e0e8', 'networks': [{'name': 'sepolia', 'amount': '0.01', 'symbol': 'ETH'}], 'explanation': 'Sending test tokens on sepolia'}".

(** A well-formed response but for a recipient that is an array holding
    an address. *)
Definition arrayRecipientResponse : JSString :=
  jsq "{'to': ['0x2d6DA915F00dcA50b06a60fca010949382f4e0e8'], 'networks': [{'name': 'sepolia', 'amount': '0.01', 'symbol': 'ETH'}], 'explanation': 'Sending test tokens on sepolia'}".

(** An [error] member that is truthy and has no primitive value. *)
Definition unprintableErrorResponse : JSString :=
  jsq "{'error': {'toString': 1}}".

(** A well-formed response beside an [error] member that is three
    backticks. *)
Definition markedErrorResponse : JSString :=
  jsq "{'error': '```', 'to': '0x2d6DA915F00dcA50b06a60fca010949382f4e0e8', 'networks': [], 'explanation': 'ok'}".

(** The signal that the request was not understood. *)
Definition errorResponse : JSString :=
  jsq "{'error': 'I am not sure what you are asking.'}".

(** A well-formed response that also has an [error] member, empty. *)
Definition emptyErrorResponse : JSString :=
  jsq "{'error': '', 'to': '0x2d6DA915F00dcA50b06a60fca010949382f4e0e8', 'networks': [], 'explanation': 'ok'}".


(** An empty recipient beside the signal. *)
Definition emptyRecipientWithError : JSString :=
  jsq "{'error': 'unclear', 'to': '', 'networks': [], 'explanation': 'ok'}".

(** A response in the labelled-line form the agent's patterns read. *)
Definition labelledResponse : JSString :=
  js "to: 0x2d6DA915F00dcA50b06a60fca010949382f4e0e8 amount: 0.01 explanation: faucet drip".

Definition sepoliaRequest : Faucet.NetworkRequest :=
  {| Faucet.req_name := js "sepolia"; Faucet.req_amount := js "0.01";
     Faucet.req_symbol := js "ETH" |}.
Definition polygonRequest : Faucet.NetworkRequest :=
  {| Faucet.req_name := js "polygon"; Faucet.req_amount := js "0.1";
     Faucet.req_symbol := js "POL" |}.
Definition fooRequest : Faucet.NetworkRequest :=
  {| Faucet.req_name := js "foo"; Faucet.req_amount := js "0.01";
     Faucet.req_symbol := js "ETH" |}.
Definition abstractRequest : Faucet.NetworkRequest :=
  {| Faucet.req_name := js "abstract"; Faucet.req_amount := js "0.01";
     Faucet.req_symbol := js "ETH" |}.

End Reference.

(* ================================================================== *)
(** * Properties *)
(* ================================================================== *)

(** ** Strings *)

Lemma jsEqb_eq (a b : JSString) : jsEqb a b = true <-> a = b.
Proof.
  revert b; induction a as [|x a IH]; intros [|y b]; simpl;
    try (split; [discriminate | discriminate]); try tauto.
  rewrite andb_true_iff, N.eqb_eq, IH.
  split; [intros [-> ->]; reflexivity | intros E; inversion E; auto].
Qed.

Lemma jsEqb_refl (a : JSString) : jsEqb a a = true.
Proof. apply jsEqb_eq; reflexivity. Qed.

Lemma startsWith_spec (p s : JSString) :
  startsWith p s = true <-> exists rest, s = p ++ rest.
Proof.
  revert s; induction p as [|x p IH]; intros s; simpl.
  - split; [intros _; exists s; reflexivity | reflexivity].
  - destruct s as [|y s].
    + split; [discriminate | intros [r E]; discriminate].
    + rewrite andb_true_iff, N.eqb_eq, IH. split.
      * intros [-> [r ->]]. exists r; reflexivity.
      * intros [r E]. inversion E; subst. split; [reflexivity | exists r; reflexivity].
Qed.

Lemma startsWith_app (p rest : JSString) : startsWith p (p ++ rest) = true.
Proof. apply startsWith_spec; exists rest; reflexivity. Qed.

(** [includes] decides the occurrence of the needle. *)
Lemma includes_spec (s needle : JSString) :
  includes s needle = true <-> Substring needle s.
Proof.
  unfold Substring. induction s as [|c s IH]; simpl.
  - rewrite orb_false_r, startsWith_spec. split.
    + intros [r E]. exists [], r. exact E.
    + intros [pre [post E]]. destruct pre as [|x pre]; [|discriminate].
      exists post. exact E.
  - rewrite orb_true_iff, startsWith_spec, IH. split.
    + intros [[r E] | [pre [post E]]].
      * exists [], r. exact E.
      * exists (c :: pre), post. simpl. rewrite E. reflexivity.
    + intros [pre [post E]]. destruct pre as [|x pre].
      * left. exists post. exact E.
      * right. inversion E; subst. exists pre, post. reflexivity.
Qed.

Lemma includes_middle (a b c : JSString) : includes (a ++ b ++ c) b = true.
Proof. apply includes_spec. exists a, c. reflexivity. Qed.

(** ** The registry *)

Section RegistryFacts.
Import Networks.
Context `{ViemChains}.

(** [Object.keys(networks)]: the five keys, in the order of the literal. *)
Lemma getAvailableNetworks_enumeration :
  getAvailableNetworks =
  [ js "sepolia"; js "abstract"; js "optimism-sepolia"; js "polygon";
    js "shardeum-atomium" ].
Proof. reflexivity. Qed.

(** A registered name is looked up to the configuration built from its
    entry: the chain is the registered chain, so is its id, and the
    faucet symbol is not the empty string. *)
Lemma getNetwork_registered (key : JSString) (c : Chain) (f : FaucetConfig) :
  In (key, c, f) registrations ->
  exists cfg,
    getNetwork key = Own cfg /\
    chain cfg = c /\ chain_id (chain cfg) = chain_id c /\
    pc_chain (publicClient cfg) = c /\
    faucet cfg = f /\ symbol (faucet cfg) <> [].
Proof.
  intros HIn. simpl in HIn.
  repeat (destruct HIn as [E | HIn];
          [inversion E; subst; clear E;
           eexists; repeat split; try reflexivity; simpl; discriminate |]).
  contradiction.
Qed.

(** A name that is no key of the registry and none of
    [Object.prototype] is looked up to [undefined]. *)
Lemma getNetwork_absent (name : JSString) :
  ~ In name getAvailableNetworks ->
  inObjectPrototype name = false ->
  getNetwork name = Undefined.
Proof.
  intros HnotIn Hproto. unfold getNetwork.
  assert (Hown : getOwn networks name = None).
  { clear Hproto. revert HnotIn. unfold getAvailableNetworks.
    induction networks as [|[k v] l IH]; simpl; intros Hn; [reflexivity|].
    destruct (jsEqb k name) eqn:E.
    - apply jsEqb_eq in E. exfalso; apply Hn; left; exact E.
    - apply IH. intros Hin; apply Hn; right; exact Hin. }
  rewrite Hown, Hproto. reflexivity.
Qed.

(** The lookup is a total function: it returns, whatever the name. *)
Lemma getNetwork_total (name : JSString) :
  (exists cfg, getNetwork name = Own cfg /\ In name getAvailableNetworks) \/
  (getNetwork name = Inherited name /\ inObjectPrototype name = true) \/
  getNetwork name = Undefined.
Proof.
  unfold getNetwork.
  destruct (getOwn networks name) as [cfg|] eqn:E.
  - left. exists cfg. split; [reflexivity|].
    revert E. unfold getAvailableNetworks.
    induction networks as [|[k v] l IH]; simpl; [discriminate|].
    destruct (jsEqb k name) eqn:Ek.
    + intros _. left. apply jsEqb_eq; exact Ek.
    + intros E. right. apply IH; exact E.
  - destruct (inObjectPrototype name) eqn:P.
    + right; left. split; reflexivity.
    + right; right. reflexivity.
Qed.

(** C7 (failing input).  The name [constructor] is no key of the
    registry, yet [getNetwork] does not return [undefined] for it: the
    property read on the plain object [networks] finds the member
    inherited from [Object.prototype], a value that is not falsy, so the
    guard [if (!network)] of the callers does not fire. *)
Theorem getNetwork_inherited_name_not_absent :
  ~ In (js "constructor") getAvailableNetworks /\
  getNetwork (js "constructor") = Inherited (js "constructor") /\
  getNetwork (js "constructor") <> Undefined /\
  isFalsyLookup (getNetwork (js "constructor")) = false.
Proof.
  split.
  - rewrite getAvailableNetworks_enumeration. simpl.
    intros [E | [E | [E | [E | [E | []]]]]]; discriminate E.
  - assert (E : getNetwork (js "constructor") = Inherited (js "constructor"))
      by reflexivity.
    rewrite E. repeat split. discriminate.
Qed.

End RegistryFacts.

(** ** Network selection *)

Section SelectionFacts.
Import Networks.
Context `{JSEngine} `{ViemChains}.

(** C2.  The selector returns the whole registry enumeration when the
    lower-cased input contains [all] or [both], whatever else it
    contains; otherwise it returns, in registry enumeration order,
    exactly the registered names whose lower-cased form occurs in the
    lower-cased input. *)
Theorem getNetworksFromInput_selects (input : JSString) :
  ((Substring (js "all") (toLowerCase input) \/
    Substring (js "both") (toLowerCase input)) /\
   Faucet.getNetworksFromInput input = getAvailableNetworks)
  \/
  (~ (Substring (js "all") (toLowerCase input) \/
      Substring (js "both") (toLowerCase input)) /\
   Faucet.getNetworksFromInput input =
     filter (fun name => includes (toLowerCase input) (toLowerCase name))
            getAvailableNetworks /\
   forall name,
     In name (Faucet.getNetworksFromInput input) <->
     In name getAvailableNetworks /\
     Substring (toLowerCase name) (toLowerCase input)).
Proof.
  unfold Faucet.getNetworksFromInput. cbv zeta.
  destruct (includes (toLowerCase input) (js "both")) eqn:Eboth; unfold orb.
  - left. split; [|reflexivity].
    right. apply includes_spec. exact Eboth.
  - destruct (includes (toLowerCase input) (js "all")) eqn:Eall.
    + left. split; [|reflexivity].
      left. apply includes_spec. exact Eall.
    + right. split; [|split; [reflexivity|]].
      * intros [Hc | Hc]; apply includes_spec in Hc; congruence.
      * intros name. rewrite filter_In, includes_spec. reflexivity.
Qed.

End SelectionFacts.

(** ** Dispatch *)

Section DispatchFacts.
Import Networks Viem Faucet.
Context `{ViemChains} `{Client} `{Wallet}.

Lemma setChain_same (w : World) (i : Z) (s : ChainState) :
  setChain w i s i = s.
Proof. unfold setChain. rewrite Z.eqb_refl. reflexivity. Qed.

Lemma setChain_other (w : World) (i j : Z) (s : ChainState) :
  j <> i -> setChain w i s j = w j.
Proof.
  intros Hne. unfold setChain.
  destruct (Z.eqb_spec j i); [contradiction | reflexivity].
Qed.

(** The clients of a registered configuration are bound to its chain. *)
Lemma getOwn_clients (l : list (JSString * Chain * FaucetConfig))
  (name : JSString) (cfg : NetworkConfig) :
  getOwn (List.map (fun '(key, c, f) => (key, createNetworkConfig c f)) l) name
    = Some cfg ->
  pc_chain (publicClient cfg) = chain cfg.
Proof.
  induction l as [|[[k c] f] l IH]; simpl; [discriminate|].
  destruct (jsEqb k name).
  - intros E; inversion E; subst. reflexivity.
  - exact IH.
Qed.

Lemma getNetwork_clients (name : JSString) (cfg : NetworkConfig) :
  getNetwork name = Own cfg -> pc_chain (publicClient cfg) = chain cfg.
Proof.
  unfold getNetwork, networks.
  destruct (getOwn _ name) as [cfg'|] eqn:E.
  - intros E'; inversion E'; subst. eapply getOwn_clients; exact E.
  - destruct (inObjectPrototype name); discriminate.
Qed.

(** *** Confinement of the calls and of what is built from them *)

Lemma confined_ret {A} (i : Z) (a : A) : Confined i (ret a).
Proof. split; intros; [reflexivity | split; [reflexivity | assumption]]. Qed.

Lemma confined_throwA {A} (i : Z) (e : Thrown) : Confined i (@throwA _ A e).
Proof. split; intros; [reflexivity | split; [reflexivity | assumption]]. Qed.

Lemma confined_liftC {A} (i : Z) (c : Completion A) : Confined i (liftC c).
Proof. split; intros; [reflexivity | split; [reflexivity | assumption]]. Qed.

Lemma confined_rpc {A} (c : Chain)
  (call : ChainState -> Completion A * ChainState) :
  Confined (chain_id c) (rpc c call).
Proof.
  unfold rpc. split.
  - intros w j Hne. destruct (call (w (chain_id c))) as [r s]. simpl.
    apply setChain_other; exact Hne.
  - intros w1 w2 Hw. rewrite Hw.
    destruct (call (w2 (chain_id c))) as [r s]. simpl.
    rewrite !setChain_same. split; reflexivity.
Qed.

Lemma confined_bind {A B} (i : Z) (m : Async A) (k : A -> Async B) :
  Confined i m -> (forall a, Confined i (k a)) -> Confined i (bind m k).
Proof.
  intros [Hmf Hml] Hk. unfold bind. split.
  - intros w j Hne. specialize (Hmf w j Hne).
    destruct (m w) as [[a | e] w']; simpl in Hmf.
    + destruct (Hk a) as [Hkf _]. rewrite Hkf by exact Hne. exact Hmf.
    + exact Hmf.
  - intros w1 w2 Hw. destruct (Hml w1 w2 Hw) as [Hr Hs].
    destruct (m w1) as [[a1 | e1] w1'], (m w2) as [[a2 | e2] w2'];
      simpl in Hr, Hs; try discriminate.
    + inversion Hr; subst a2. destruct (Hk a1) as [_ Hkl].
      apply Hkl; exact Hs.
    + inversion Hr; subst e2. split; [reflexivity | exact Hs].
Qed.

Lemma confined_tryCatchA {A} (i : Z) (m : Async A)
  (handler : Thrown -> Async A) :
  Confined i m -> (forall e, Confined i (handler e)) ->
  Confined i (tryCatchA m handler).
Proof.
  intros [Hmf Hml] Hh. unfold tryCatchA. split.
  - intros w j Hne. specialize (Hmf w j Hne).
    destruct (m w) as [[a | e] w']; simpl in Hmf.
    + exact Hmf.
    + destruct (Hh e) as [Hhf _]. rewrite Hhf by exact Hne. exact Hmf.
  - intros w1 w2 Hw. destruct (Hml w1 w2 Hw) as [Hr Hs].
    destruct (m w1) as [[a1 | e1] w1'], (m w2) as [[a2 | e2] w2'];
      simpl in Hr, Hs; try discriminate.
    + inversion Hr; subst a2. split; [reflexivity | exact Hs].
    + inversion Hr; subst e2. destruct (Hh e1) as [_ Hhl].
      apply Hhl; exact Hs.
Qed.

(** The transaction and the status lookup of a registered network are
    confined to that network's chain. *)
Lemma makeTransaction_confined (to amount name : JSString)
  (cfg : NetworkConfig) :
  getNetwork name = Own cfg ->
  Confined (chain_id (chain cfg)) (makeTransaction to amount name).
Proof.
  intros E. pose proof (getNetwork_clients _ E) as Hpc.
  unfold makeTransaction. rewrite E. cbv zeta.
  apply confined_bind.
  - rewrite Hpc. apply confined_rpc.
  - intros balance. apply confined_bind; [apply confined_liftC|].
    intros value. destruct (balance <? value)%Z.
    + apply confined_throwA.
    + apply (confined_rpc (chain cfg)).
Qed.

Lemma getTransactionStatus_confined (hash name : JSString)
  (cfg : NetworkConfig) :
  getNetwork name = Own cfg ->
  Confined (chain_id (chain cfg)) (getTransactionStatus hash name).
Proof.
  intros E. pose proof (getNetwork_clients _ E) as Hpc.
  unfold getTransactionStatus. rewrite E. cbv zeta.
  apply confined_tryCatchA.
  - apply confined_bind.
    + rewrite Hpc. apply confined_rpc.
    + intros receipt. apply confined_ret.
  - intros e. apply confined_ret.
Qed.

Lemma dispatchOne_confined (to : JSString) (request : NetworkRequest)
  (cfg : NetworkConfig) :
  getNetwork (req_name request) = Own cfg ->
  Confined (chain_id (chain cfg)) (dispatchOne to request).
Proof.
  intros E. unfold dispatchOne. cbv zeta.
  apply confined_tryCatchA.
  - apply confined_bind; [apply makeTransaction_confined; exact E|].
    intros hash.
    apply confined_bind; [apply getTransactionStatus_confined; exact E|].
    intros st. apply confined_ret.
  - intros e. apply confined_ret.
Qed.

(** One turn of the loop never rejects, and its entry carries the name
    of its request. *)
Lemma dispatchOne_fulfils (to : JSString) (request : NetworkRequest)
  (w : World) :
  exists r w',
    dispatchOne to request w = (Normal r, w') /\
    network r = req_name request.
Proof.
  unfold dispatchOne, tryCatchA, bind, ret.
  destruct (makeTransaction to (req_amount request) (req_name request) w)
    as [[hash | e] w1].
  - destruct (getTransactionStatus hash (req_name request) w1)
      as [[st | e] w2]; eexists; eexists; split; reflexivity.
  - eexists; eexists; split; reflexivity.
Qed.

(** A request whose name is not a key of the registry is answered
    without any call: the world stays as it is, and the entry is the
    same in every world. *)
Lemma dispatchOne_unknown (to : JSString) (request : NetworkRequest)
  (w : World) :
  getNetwork (req_name request) = Undefined ->
  dispatchOne to request w =
  (Normal {| network := req_name request;
             result := NotSent (notConfiguredMessage (req_name request)) |},
   w).
Proof.
  intros E. unfold dispatchOne, tryCatchA, bind, makeTransaction.
  rewrite E. reflexivity.
Qed.

Lemma dispatchOne_inherited (to : JSString) (request : NetworkRequest)
  (w : World) (k : JSString) :
  getNetwork (req_name request) = Inherited k ->
  dispatchOne to request w =
  (Normal {| network := req_name request;
             result := NotSent notAFunctionMessage |}, w).
Proof.
  intros E. unfold dispatchOne, tryCatchA, bind, makeTransaction.
  rewrite E. reflexivity.
Qed.

(** A turn for a request on another chain leaves chain [c] as it was. *)
Lemma dispatchOne_frame (to : JSString) (request : NetworkRequest)
  (w : World) (c : Z) :
  onChain c (req_name request) = false ->
  snd (dispatchOne to request w) c = w c.
Proof.
  unfold onChain, chainOf. intros Hc.
  destruct (getNetwork (req_name request)) as [cfg | k |] eqn:E.
  - destruct (dispatchOne_confined to request E) as [Hf _].
    apply Hf. intros ->. rewrite Z.eqb_refl in Hc. discriminate.
  - rewrite (dispatchOne_inherited _ _ _ E). reflexivity.
  - rewrite (dispatchOne_unknown _ _ _ E). reflexivity.
Qed.

(** A turn for a request on chain [c] reads and writes the state of
    [c] only: from two worlds that agree on [c] it gives the same entry
    and leaves [c] in the same state. *)
Lemma dispatchOne_local (to : JSString) (request : NetworkRequest)
  (w1 w2 : World) (c : Z) :
  onChain c (req_name request) = true ->
  w1 c = w2 c ->
  fst (dispatchOne to request w1) = fst (dispatchOne to request w2) /\
  snd (dispatchOne to request w1) c = snd (dispatchOne to request w2) c.
Proof.
  unfold onChain, chainOf. intros Hc Hw.
  destruct (getNetwork (req_name request)) as [cfg | k |] eqn:E;
    try discriminate.
  apply Z.eqb_eq in Hc. subst c.
  destruct (dispatchOne_confined to request E) as [_ Hl].
  apply Hl; exact Hw.
Qed.

Lemma dispatchLoop_cons (to : JSString) (acc : list DispatchResult)
  (request : NetworkRequest) (rest : list NetworkRequest) (w : World) :
  dispatchLoop to acc (request :: rest) w =
  match dispatchOne to request w with
  | (Normal r, w') => dispatchLoop to (acc ++ [r]) rest w'
  | (Throw e, w') => (Throw e, w')
  end.
Proof. reflexivity. Qed.

(** The loop fulfils with one entry a request, in the order of the
    requests, each entry under the name of its request; a request for a
    name the lookup does not know gets the "not configured" failure. *)
Lemma dispatchLoop_entries (to : JSString) (cfgs : list NetworkRequest) :
  forall (acc : list DispatchResult) (w : World),
  exists rs w',
    dispatchLoop to acc cfgs w = (Normal (acc ++ rs), w') /\
    length rs = length cfgs /\
    List.map network rs = List.map req_name cfgs /\
    (forall i request,
       nth_error cfgs i = Some request ->
       getNetwork (req_name request) = Undefined ->
       nth_error rs i =
       Some {| network := req_name request;
               result := NotSent (notConfiguredMessage (req_name request)) |}).
Proof.
  induction cfgs as [|request rest IH]; intros acc w.
  - exists [], w. simpl. rewrite app_nil_r.
    repeat split; try reflexivity.
    intros [|i] request E; discriminate E.
  - rewrite dispatchLoop_cons.
    destruct (dispatchOne_fulfils to request w) as [r [w1 [E1 Hname]]].
    destruct (IH (acc ++ [r]) w1) as [rs [w' [E2 [Hlen [Hmap Hunk]]]]].
    exists (r :: rs), w'. rewrite E1, E2, <- app_assoc. simpl.
    repeat split.
    + rewrite Hlen. reflexivity.
    + rewrite Hname, Hmap. reflexivity.
    + intros [|i] request' Hnth Hundef; simpl in Hnth |- *.
      * inversion Hnth; subst request'.
        rewrite (dispatchOne_unknown to request w Hundef) in E1.
        inversion E1. reflexivity.
      * apply Hunk; assumption.
Qed.

(** Running the whole batch and keeping the entries of chain [c] gives
    what running only the requests of chain [c] gives, from any world
    that agrees on [c]. *)
Lemma dispatchLoop_filter (to : JSString) (c : Z)
  (cfgs : list NetworkRequest) :
  forall (acc1 acc2 : list DispatchResult) (w1 w2 : World),
  w1 c = w2 c ->
  exists rs w1' w2',
    dispatchLoop to acc1 cfgs w1 = (Normal (acc1 ++ rs), w1') /\
    dispatchLoop to acc2
      (filter (fun request => onChain c (req_name request)) cfgs) w2 =
      (Normal (acc2 ++ filter (fun r => onChain c (network r)) rs), w2') /\
    w1' c = w2' c.
Proof.
  induction cfgs as [|request rest IH]; intros acc1 acc2 w1 w2 Hw.
  - exists [], w1, w2. simpl. rewrite !app_nil_r. repeat split. exact Hw.
  - rewrite dispatchLoop_cons.
    destruct (dispatchOne_fulfils to request w1) as [r [w1a [E1 Hname]]].
    rewrite E1. simpl filter.
    destruct (onChain c (req_name request)) eqn:Hon.
    + rewrite dispatchLoop_cons.
      destruct (@dispatchOne_local to request w1 w2 c Hon Hw) as [Hr Hs].
      destruct (dispatchOne to request w2) as [r2 w2a] eqn:E2.
      rewrite E1 in Hr, Hs. simpl in Hr, Hs. subst r2.
      destruct (IH (acc1 ++ [r]) (acc2 ++ [r]) w1a w2a Hs)
        as [rs [w1' [w2' [F1 [F2 Hc]]]]].
      exists (r :: rs), w1', w2'. rewrite F1, F2. simpl.
      rewrite Hname, Hon, <- !app_assoc. simpl. repeat split. exact Hc.
    + pose proof (@dispatchOne_frame to request w1 c Hon) as Hf.
      rewrite E1 in Hf. simpl in Hf.
      assert (Hw' : w1a c = w2 c) by (rewrite Hf; exact Hw).
      destruct (IH (acc1 ++ [r]) acc2 w1a w2 Hw')
        as [rs [w1' [w2' [F1 [F2 Hc]]]]].
      exists (r :: rs), w1', w2'. rewrite F1, F2. simpl.
      rewrite Hname, Hon, <- app_assoc. simpl. repeat split. exact Hc.
Qed.

(** C1.  For every recipient and every list of requests the dispatcher
    fulfils with exactly one entry a request, in the order of the
    requests and each under the name of its own request; an entry is a
    success (hash, status) or a failure message.  A request for a name
    the lookup does not know gets the "not configured" failure, and no
    request disturbs the entries of another chain: for every chain, the
    entries of the requests sent to it are what the batch reduced to
    those requests produces. *)
Theorem makeMultipleTransactions_one_result_each
  (to : JSString) (networkConfigs : list NetworkRequest) (w : World) :
  exists results w',
    makeMultipleTransactions to networkConfigs w = (Normal results, w') /\
    length results = length networkConfigs /\
    List.map network results = List.map req_name networkConfigs /\
    (forall i request,
       nth_error networkConfigs i = Some request ->
       getNetwork (req_name request) = Undefined ->
       nth_error results i =
       Some {| network := req_name request;
               result := NotSent (notConfiguredMessage (req_name request)) |}) /\
    (forall c, exists w'',
       makeMultipleTransactions to
         (filter (fun request => onChain c (req_name request)) networkConfigs)
         w =
       (Normal (filter (fun r => onChain c (network r)) results), w'')).
Proof.
  unfold makeMultipleTransactions.
  destruct (dispatchLoop_entries to networkConfigs [] w)
    as [rs [w' [E [Hlen [Hmap Hunk]]]]].
  exists rs, w'. simpl in E. repeat split; try assumption.
  intros c.
  destruct (dispatchLoop_filter to c networkConfigs [] [] w w eq_refl)
    as [rs' [w1' [w2' [F1 [F2 _]]]]].
  simpl in F1, F2. rewrite E in F1. inversion F1; subst rs'.
  exists w2'. exact F2.
Qed.

End DispatchFacts.

(** ** Decoded values *)

(** Induction on a decoded value, with the property known for the items
    of an array and for the member values of an object. *)
Section JSValueInduction.
Import Json.
Variable P : JSValue -> Prop.
Hypothesis Hnull : P JNull.
Hypothesis Hbool : forall b, P (JBool b).
Hypothesis Hnumber : forall m e, P (JNumber m e).
Hypothesis Hstring : forall s, P (JString s).
Hypothesis Harray : forall items, Forall P items -> P (JArray items).
Hypothesis Hobject :
  forall props, Forall (fun member => P (snd member)) props ->
                P (JObject props).

Fixpoint JSValue_induction (v : JSValue) : P v :=
  match v with
  | JNull => Hnull
  | JBool b => Hbool b
  | JNumber m e => Hnumber m e
  | JString s => Hstring s
  | JArray items =>
    Harray
      ((fix all (l : list JSValue) : Forall P l :=
          match l with
          | [] => Forall_nil P
          | x :: rest => Forall_cons x (JSValue_induction x) (all rest)
          end) items)
  | JObject props =>
    Hobject
      ((fix all (l : list (JSString * JSValue))
          : Forall (fun member => P (snd member)) l :=
          match l with
          | [] => Forall_nil _
          | member :: rest =>
            Forall_cons member (JSValue_induction (snd member)) (all rest)
          end) props)
  end.

End JSValueInduction.

Section ParseFacts.
Import Json Faucet.
Context `{JSEngine}.

(** The one error [JSON.parse] throws. *)
Lemma JSON_parse_throws (text : JSString) (e : Thrown) :
  JSON_parse text = Throw e -> e = ErrorObject syntaxErrorMessage.
Proof.
  unfold JSON_parse.
  destruct (parseValue _ text) as [[v r]|].
  - destruct (skipWs r); intros E; inversion E; reflexivity.
  - intros E; inversion E; reflexivity.
Qed.

(** The one error the coercion to a string throws. *)
Lemma ToString_throws (v : JSValue) :
  forall e, ToString v = Throw e -> e = ErrorObject toPrimitiveMessage.
Proof.
  induction v as [| b | m e0 | s | items IH | props _] using JSValue_induction;
    intros e.
  - discriminate.
  - destruct b; discriminate.
  - discriminate.
  - discriminate.
  - simpl. induction IH as [| x rest Hx _ IHrest].
    + discriminate.
    + assert (Hx' : forall e',
                (match x with JNull => Normal [] | _ => ToString x end)
                = Throw e' -> e' = ErrorObject toPrimitiveMessage).
      { intros e'. destruct x; try discriminate; apply Hx. }
      destruct (match x with JNull => Normal [] | _ => ToString x end)
        as [sx | ex] eqn:Ex.
      * simpl. destruct rest as [| y rest'].
        -- discriminate.
        -- match goal with
           | |- bindC ?j _ = _ -> _ => destruct j as [sr | er] eqn:Er
           end.
           ++ discriminate.
           ++ simpl. intros E. inversion E; subst. apply IHrest. reflexivity.
      * simpl. intros E. inversion E; subst. apply Hx'. reflexivity.
  - simpl. destruct (getOwnProp props (js "toString")).
    + intros E; inversion E; reflexivity.
    + discriminate.
Qed.

Lemma parseAIResponse_decoded (response : JSString) (v : JSValue) :
  JSON_parse (cleanResponse response) = Normal v ->
  parseAIResponse response = parseDecoded v.
Proof.
  intros E. unfold parseAIResponse, parseBody, parseDecoded.
  rewrite E. reflexivity.
Qed.

(** A response that does not decode is a malformed response. *)
Lemma parseAIResponse_undecoded (response : JSString) (e : Thrown) :
  JSON_parse (cleanResponse response) = Throw e ->
  parseAIResponse response = Throw MalformedResponse.
Proof.
  intros E. pose proof (JSON_parse_throws _ E) as ->.
  unfold parseAIResponse, parseBody. rewrite E. reflexivity.
Qed.

Lemma getProp_field (v : JSValue) (k : JSString) :
  v <> JNull -> getProp v k = Normal (field v k).
Proof. destruct v; intros Hn; try reflexivity. contradiction. Qed.

(** What the parser does with a decoded response, as one case
    analysis.  When the [error] member is truthy: the understanding
    failure if the member can be printed, the malformed response if
    building the line for the console throws.  Otherwise: the decoded
    value itself when the three required members are truthy and the
    address test accepts the recipient, and the malformed response when
    not. *)
Lemma parseDecoded_cases (v : JSValue) :
  parseDecoded v =
  if truthy (field v (js "error")) then
    Throw (if printable (field v (js "error"))
           then UnderstandingFailure else MalformedResponse)
  else if truthy (field v (js "to")) && truthy (field v (js "networks")) &&
          truthy (field v (js "explanation")) &&
          addressAccepted (field v (js "to"))
       then Normal v
       else Throw MalformedResponse.
Proof.
  unfold parseDecoded, checkParsed.
  destruct v as [| b | m e | s | items | props];
    try reflexivity.
  simpl getProp. cbn [bindC field].
  destruct (truthy (getOwnProp props (js "error"))) eqn:Eerr.
  - unfold printable.
    destruct (getOwnProp props (js "error")) as [x|]; [|discriminate Eerr].
    cbn [errorText].
    destruct (ToString x) as [text | e] eqn:Et; [reflexivity|].
    pose proof (ToString_throws _ Et) as ->. reflexivity.
  - destruct (getOwnProp props (js "to")) as [to|]; [|reflexivity].
    destruct (truthy (Some to)); [|reflexivity].
    destruct (truthy (getOwnProp props (js "networks"))); [|reflexivity].
    destruct (truthy (getOwnProp props (js "explanation"))); [|reflexivity].
    cbn [negb orb andb addressAccepted].
    destruct (ToString to) as [text | e] eqn:Et.
    + cbn [bindC]. destruct (testAddress text); reflexivity.
    + pose proof (ToString_throws _ Et) as ->. reflexivity.
Qed.

(** The address pattern: a zero, an [x] of either case, and exactly
    forty hexadecimal digits, nothing before and nothing after. *)
Lemma testAddress_spec (s : JSString) :
  testAddress s = true <->
  exists x digits,
    s = 48 :: x :: digits /\ (x = 120 \/ x = 88) /\
    length digits = 40%nat /\
    Forall (fun c => isHexDigit c = true) digits.
Proof.
  unfold testAddress. split.
  - destruct s as [| c0 [| c1 digits]]; try discriminate.
    rewrite !andb_true_iff, orb_true_iff, !N.eqb_eq, Nat.eqb_eq, forallb_forall.
    intros [[[-> Hx] Hlen] Hhex].
    exists c1, digits. repeat split; try assumption.
    apply Forall_forall. exact Hhex.
  - intros [x [digits [-> [Hx [Hlen Hhex]]]]].
    rewrite !andb_true_iff, orb_true_iff, !N.eqb_eq, Nat.eqb_eq, forallb_forall.
    repeat split; try assumption.
    apply Forall_forall. exact Hhex.
Qed.



(** The address test on the decoded response.  A response whose
    recipient the test does not accept is never turned into an intent:
    it fails with the malformed response, or, when a truthy [error]
    member can be printed, with the understanding failure, that check
    coming first.  An intent that is returned is the value decoded from
    the cleaned response, and its recipient passes the test. *)
Lemma parseAIResponse_rejects_unaccepted_recipient (response : JSString) :
  (forall v,
     JSON_parse (cleanResponse response) = Normal v ->
     addressAccepted (field v (js "to")) = false ->
     parseAIResponse response =
     Throw (if truthy (field v (js "error")) &&
               printable (field v (js "error"))
            then UnderstandingFailure else MalformedResponse)) /\
  (forall e,
     JSON_parse (cleanResponse response) = Throw e ->
     parseAIResponse response = Throw MalformedResponse) /\
  (forall intent,
     parseAIResponse response = Normal intent ->
     JSON_parse (cleanResponse response) = Normal intent /\
     exists to text,
       field intent (js "to") = Some to /\
       ToString to = Normal text /\ testAddress text = true).
Proof.
  split; [|split].
  - intros v E Hbad.
    rewrite (parseAIResponse_decoded _ E), parseDecoded_cases, Hbad.
    rewrite andb_false_r.
    destruct (truthy (field v (js "error"))); reflexivity.
  - intros e E. exact (parseAIResponse_undecoded _ E).
  - intros intent Hret.
    destruct (JSON_parse (cleanResponse response)) as [v | e] eqn:E.
    + rewrite (parseAIResponse_decoded _ E), parseDecoded_cases in Hret.
      destruct (truthy (field v (js "error"))); [discriminate|].
      destruct (truthy (field v (js "to")) &&
                truthy (field v (js "networks")) &&
                truthy (field v (js "explanation")) &&
                addressAccepted (field v (js "to"))) eqn:Hall;
        [|discriminate].
      inversion Hret; subst intent. split; [reflexivity|].
      apply andb_true_iff in Hall. destruct Hall as [_ Hacc].
      unfold addressAccepted in Hacc.
      destruct (field v (js "to")) as [to|]; [|discriminate].
      destruct (ToString to) as [text|] eqn:Et; [|discriminate].
      exists to, text. repeat split; assumption.
    + rewrite (parseAIResponse_undecoded _ E) in Hret. discriminate.
Qed.

(** The understanding failure on the cleaned response: it is thrown
    exactly when the cleaned response decodes to an object whose
    [error] member is truthy and can be printed. *)
Lemma parseAIResponse_understanding_iff (response : JSString) :
  parseAIResponse response = Throw UnderstandingFailure <->
  exists v x text,
    JSON_parse (cleanResponse response) = Normal v /\
    field v (js "error") = Some x /\ truthyValue x = true /\
    ToString x = Normal text.
Proof.
  split.
  - intros R.
    destruct (JSON_parse (cleanResponse response)) as [v | e] eqn:E.
    + rewrite (parseAIResponse_decoded _ E), parseDecoded_cases in R.
      unfold printable in R.
      destruct (field v (js "error")) as [x|] eqn:Ex.
      * cbn [truthy errorText] in R.
        destruct (truthyValue x) eqn:Etr.
        -- destruct (ToString x) as [text | e] eqn:Et.
           ++ exists v, x, text. repeat split; assumption.
           ++ discriminate R.
        -- destruct (_ && _); discriminate R.
      * cbn [truthy] in R. destruct (_ && _); discriminate R.
    + rewrite (parseAIResponse_undecoded _ E) in R. discriminate R.
  - intros [v [x [text [E [Ex [Etr Et]]]]]].
    rewrite (parseAIResponse_decoded _ E), parseDecoded_cases.
    unfold printable. rewrite Ex. cbn [truthy errorText].
    rewrite Etr, Et. reflexivity.
Qed.


End ParseFacts.

(** ** Code fences *)

Section FenceFacts.
Import Json Faucet.

Lemma replaceFrom_skipn (k : nat) (s : JSString) :
  replaceFrom k s = replaceFrom 0 (skipn k s).
Proof.
  revert k. induction s as [| c rest IH]; intros k.
  - destruct k; reflexivity.
  - destruct k as [| k]; [reflexivity|]. simpl skipn. simpl replaceFrom at 1.
    apply IH.
Qed.

(** One step of the scan: a code unit where the pattern does not match
    is kept; a match is dropped and the scan goes on behind it. *)
Lemma replaceFences_step (c : N) (rest : JSString) :
  replaceFences (c :: rest) =
  match fenceMatch (c :: rest) with
  | O => c :: replaceFences rest
  | S k => replaceFences (skipn k rest)
  end.
Proof.
  unfold replaceFences. simpl replaceFrom at 1.
  destruct (fenceMatch (c :: rest)); [reflexivity|].
  apply replaceFrom_skipn.
Qed.

Lemma fenceMatch_unfold (s : JSString) :
  fenceMatch s =
  if startsWith [96; 96; 96; 106; 115; 111; 110] s then
    if startsWith [96; 96; 96; 106; 115; 111; 110; 10] s then 8%nat else 7%nat
  else if startsWith [10; 96; 96; 96] s then 4%nat
  else if startsWith [96; 96; 96] s then 3%nat
  else 0%nat.
Proof. reflexivity. Qed.

Lemma startsWith_cons (x y : N) (pat s : JSString) :
  startsWith (x :: pat) (y :: s) = (x =? y) && startsWith pat s.
Proof. reflexivity. Qed.

(** A pattern without line feed matches at the start of [p] followed by
    a line feed exactly when it matches at the start of [p]. *)
Lemma startsWith_before_line_feed (pat p t : JSString) :
  forallb (fun c => negb (c =? 10)) pat = true ->
  startsWith pat (p ++ 10 :: t) = startsWith pat p.
Proof.
  revert p. induction pat as [| x pat IH]; intros p Hpat; [reflexivity|].
  simpl in Hpat. apply andb_true_iff in Hpat. destruct Hpat as [Hx Hpat].
  destruct p as [| y p]; simpl.
  - apply negb_true_iff in Hx. rewrite Hx. reflexivity.
  - rewrite IH by exact Hpat. reflexivity.
Qed.

(** The closing fence after a payload changes nothing of what the scan
    keeps of the payload, and is itself dropped. *)
Lemma replaceFences_closing_fence (n : nat) :
  forall p, (length p <= n)%nat ->
  replaceFences (p ++ [10; 96; 96; 96]) = replaceFences p.
Proof.
  induction n as [| n IH]; intros p Hlen.
  - destruct p; [reflexivity | simpl in Hlen; lia].
  - destruct p as [| c p']; [reflexivity|].
    simpl app. rewrite !replaceFences_step, !fenceMatch_unfold.
    change (c :: p' ++ [10; 96; 96; 96]) with ((c :: p') ++ 10 :: [96; 96; 96]).
    rewrite (@startsWith_before_line_feed [96; 96; 96; 106; 115; 111; 110])
      by reflexivity.
    rewrite (@startsWith_before_line_feed [96; 96; 96]) by reflexivity.
    assert (Hlf : startsWith [10; 96; 96; 96] ((c :: p') ++ 10 :: [96; 96; 96])
                  = startsWith [10; 96; 96; 96] (c :: p')).
    { simpl app. rewrite !startsWith_cons.
      rewrite (@startsWith_before_line_feed [96; 96; 96]) by reflexivity.
      reflexivity. }
    rewrite Hlf. clear Hlf.
    destruct (startsWith [96; 96; 96; 106; 115; 111; 110] (c :: p')) eqn:EJ.
    + apply startsWith_spec in EJ. destruct EJ as [q EJ].
      simpl in EJ. inversion EJ; subst c p'. clear EJ.
      destruct q as [| c' q'].
      * reflexivity.
      * simpl app. rewrite !startsWith_cons, !N.eqb_refl. cbn [andb startsWith].
        rewrite !andb_true_r.
        destruct (10 =? c') eqn:Ec.
        -- cbn [skipn]. apply IH. simpl in Hlen. lia.
        -- cbn [skipn]. apply (IH (c' :: q')). simpl in Hlen |- *. lia.
    + destruct (startsWith [10; 96; 96; 96] (c :: p')) eqn:EL.
      * apply startsWith_spec in EL. destruct EL as [q EL].
        simpl in EL. inversion EL; subst c p'. clear EL.
        simpl app. cbn [skipn]. apply IH. simpl in Hlen. lia.
      * destruct (startsWith [96; 96; 96] (c :: p')) eqn:EB.
        -- apply startsWith_spec in EB. destruct EB as [q EB].
           simpl in EB. inversion EB; subst c p'. clear EB.
           simpl app. cbn [skipn]. apply IH. simpl in Hlen. lia.
        -- f_equal. apply IH. simpl in Hlen. lia.
Qed.

(** The scan of a fenced payload keeps what it keeps of the payload. *)
Lemma replaceFences_fenced (payload : JSString) :
  replaceFences (fenced payload) = replaceFences payload.
Proof.
  unfold fenced.
  change (js "```json" ++ 10 :: payload ++ 10 :: js "```")
    with (96 :: [96; 96; 106; 115; 111; 110; 10]
             ++ (payload ++ [10; 96; 96; 96])).
  rewrite replaceFences_step.
  change (fenceMatch (96 :: [96; 96; 106; 115; 111; 110; 10]
                         ++ (payload ++ [10; 96; 96; 96])))
    with 8%nat.
  cbn [skipn app].
  apply (@replaceFences_closing_fence (length payload)). apply Nat.le_refl.
Qed.

(** Where no three backticks stand in a row the scan keeps
    everything. *)
Lemma replaceFences_no_marker (s : JSString) :
  includes s (js "```") = false -> replaceFences s = s.
Proof.
  change (js "```") with [96; 96; 96].
  induction s as [| c rest IH]; intros Hno; [reflexivity|].
  cbn [includes] in Hno. apply orb_false_iff in Hno.
  destruct Hno as [Hhere Hrest].
  rewrite replaceFences_step, fenceMatch_unfold.
  assert (HJ : startsWith [96; 96; 96; 106; 115; 111; 110] (c :: rest) = false).
  { destruct (startsWith [96; 96; 96; 106; 115; 111; 110] (c :: rest)) eqn:EJ;
      [|reflexivity].
    apply startsWith_spec in EJ. destruct EJ as [q EJ].
    rewrite EJ in Hhere. discriminate Hhere. }
  assert (HL : startsWith [10; 96; 96; 96] (c :: rest) = false).
  { rewrite startsWith_cons.
    destruct rest as [| d rest']; [apply andb_false_r|].
    cbn [includes] in Hrest. apply orb_false_iff in Hrest.
    destruct Hrest as [Hrest _]. rewrite Hrest. apply andb_false_r. }
  rewrite HJ, HL, Hhere. f_equal. apply IH. exact Hrest.
Qed.

Context `{JSEngine}.

(** A payload wrapped in a fenced code block is cleaned to what the
    bare payload is cleaned to, so the parser gives the same outcome
    for both, the same intent when there is one. *)
Lemma parseAIResponse_fenced (payload : JSString) :
  cleanResponse (fenced payload) = cleanResponse payload /\
  parseAIResponse (fenced payload) = parseAIResponse payload.
Proof.
  assert (E : cleanResponse (fenced payload) = cleanResponse payload).
  { unfold cleanResponse. rewrite replaceFences_fenced. reflexivity. }
  split; [exact E|].
  unfold parseAIResponse, parseBody. rewrite E. reflexivity.
Qed.

(** What is decoded of a response in which no three backticks stand in
    a row, bare or in a fenced code block: the response without the
    white space around it. *)
Lemma cleanResponse_no_marker (response : JSString) :
  includes response (js "```") = false ->
  cleanResponse response = trim response /\
  cleanResponse (fenced response) = trim response.
Proof.
  intros Hno.
  assert (E : cleanResponse response = trim response).
  { unfold cleanResponse. rewrite replaceFences_no_marker by exact Hno.
    reflexivity. }
  split; [exact E|].
  rewrite (proj1 (parseAIResponse_fenced response)). exact E.
Qed.

End FenceFacts.

(** ** The insufficient-funds messages *)

Lemma Substring_inside (t s pre post : JSString) :
  Substring t s -> Substring t (pre ++ s ++ post).
Proof.
  intros [a [b ->]]. exists (pre ++ a), (b ++ post).
  rewrite <- !app_assoc. reflexivity.
Qed.

Lemma includes_inside (t s pre post : JSString) :
  includes s t = true -> includes (pre ++ s ++ post) t = true.
Proof.
  intros Hin. apply includes_spec. apply Substring_inside.
  apply includes_spec. exact Hin.
Qed.

Lemma includes_self (t : JSString) : includes t t = true.
Proof. apply includes_spec. exists [], []. rewrite app_nil_r. reflexivity. Qed.

Section FundsFacts.
Import Networks Viem.
Context `{ViemChains} `{Client} `{Wallet}.

(** What the agent's message shows. *)
Lemma insufficientFundsMessage_shows (balanceText amountText : JSString) :
  includes (Agent.insufficientFundsMessage balanceText amountText)
           balanceText = true /\
  includes (Agent.insufficientFundsMessage balanceText amountText)
           amountText = true.
Proof.
  unfold Agent.insufficientFundsMessage. split.
  - apply includes_middle.
  - apply includes_spec.
    exists (js "Insufficient funds. Balance: " ++ balanceText ++
            js " ETH, Trying to send: "), (js " ETH").
    rewrite <- !app_assoc. reflexivity.
Qed.

(** What the faucet's message shows. *)
Lemma drainedMessage_shows (name balanceText symbolText : JSString) :
  includes (Faucet.drainedMessage name balanceText symbolText) name = true /\
  includes (Faucet.drainedMessage name balanceText symbolText)
           balanceText = true /\
  includes (Faucet.drainedMessage name balanceText symbolText)
           symbolText = true.
Proof.
  unfold Faucet.drainedMessage. repeat split.
  - apply includes_middle.
  - apply includes_spec.
    exists (js "Faucet is currently drained for " ++ name ++
            js ". We will refill it soon. " ++ js "Current balance: "),
           (js " " ++ symbolText).
    rewrite <- !app_assoc. reflexivity.
  - apply includes_spec.
    exists (js "Faucet is currently drained for " ++ name ++
            js ". We will refill it soon. " ++ js "Current balance: " ++
            balanceText ++ js " "), [].
    rewrite app_nil_r, <- !app_assoc. reflexivity.
Qed.

(** C3 (amended).  When the signer's balance on the target chain, in
    wei, is strictly less than the requested amount parsed to wei, the
    transaction is not sent and the call fails with a message.  In the
    single-network agent the message shows the balance in ether and the
    requested amount as it was given.  In the multi-network faucet the
    message shows the network name, the balance in ether and the faucet
    symbol of the network; the requested amount is no part of it. *)
Theorem makeTransaction_insufficient_funds
  (to amount : JSString) (w : World) (balance value : Z) :
  parseEther amount = Normal value ->
  (balance < value)%Z ->
  (forall s',
     getBalance Agent.publicClient (address account) (w (chain_id sepolia))
       = (Normal balance, s') ->
     fst (Agent.makeTransaction to amount w) =
       Throw (ErrorObject
                (Agent.insufficientFundsMessage (formatEther balance) amount)) /\
     includes (Agent.insufficientFundsMessage (formatEther balance) amount)
              (formatEther balance) = true /\
     includes (Agent.insufficientFundsMessage (formatEther balance) amount)
              amount = true) /\
  (forall name cfg s',
     getNetwork name = Own cfg ->
     getBalance (publicClient cfg) (address account)
                (w (chain_id (chain cfg))) = (Normal balance, s') ->
     fst (Faucet.makeTransaction to amount name w) =
       Throw (ErrorObject
                (Faucet.drainedMessage name (formatEther balance)
                                       (symbol (faucet cfg)))) /\
     includes (Faucet.drainedMessage name (formatEther balance)
                                     (symbol (faucet cfg))) name = true /\
     includes (Faucet.drainedMessage name (formatEther balance)
                                     (symbol (faucet cfg)))
              (formatEther balance) = true /\
     includes (Faucet.drainedMessage name (formatEther balance)
                                     (symbol (faucet cfg)))
              (symbol (faucet cfg)) = true).
Proof.
  intros Hparse Hlt. apply Z.ltb_lt in Hlt. split.
  - intros s' Hbal. split; [|apply insufficientFundsMessage_shows].
    unfold Agent.makeTransaction, bind, rpc, liftC, throwA.
    change (pc_chain Agent.publicClient) with sepolia.
    rewrite Hbal, Hparse, Hlt. reflexivity.
  - intros name cfg s' E Hbal. split; [|apply drainedMessage_shows].
    pose proof (getNetwork_clients _ E) as Hpc.
    unfold Faucet.makeTransaction, bind, rpc, liftC, throwA.
    rewrite E. cbv zeta. rewrite Hpc, Hbal, Hparse, Hlt. reflexivity.
Qed.

End FundsFacts.

(** ** Status polling *)

Section PollFacts.
Import Networks Viem Agent.
Context `{ViemChains} `{Client} `{Wallet}.

(** The agent's status lookup never rejects. *)
Lemma getTransactionStatus_lookup (hash : JSString) (w : World) :
  Agent.getTransactionStatus hash w =
  (Normal (fst (lookup hash w)), snd (lookup hash w)).
Proof.
  unfold lookup, Agent.getTransactionStatus, tryCatchA, bind, ret, rpc.
  destruct (getTransactionReceipt _ hash _) as [[receipt | e] s'];
    reflexivity.
Qed.

Lemma afterLookups_next (hash : JSString) (k : nat) :
  forall w : World,
  afterLookups hash (S k) w = snd (lookup hash (afterLookups hash k w)).
Proof.
  induction k as [| k IH]; intros w; [reflexivity|].
  change (afterLookups hash (S (S k)) w)
    with (afterLookups hash (S k) (snd (lookup hash w))).
  rewrite IH. reflexivity.
Qed.

Lemma startPolling_lookup (hash : JSString) (w : World) :
  startPolling hash w =
  ({| elapsed := 0; intervalSet := true; status := nthStatus hash 0 w;
      launches := []; underWay := [];
      console := [InitialStatus (nthStatus hash 0 w)] |},
   afterLookups hash 1 w).
Proof.
  unfold startPolling. rewrite getTransactionStatus_lookup. reflexivity.
Qed.

Lemma run_app (hash : JSString) (events later : list Event) :
  forall pw : Poller * World,
  run hash (events ++ later) pw = run hash later (run hash events pw).
Proof.
  induction events as [| e events IH]; intros pw; [reflexivity|].
  cbn [app run]. apply IH.
Qed.

Lemma expiries_next (n : nat) :
  expiries (S n) = expiries n ++ [(pollInterval * Z.of_nat (S n))%Z].
Proof.
  unfold expiries. rewrite seq_S, map_app. reflexivity.
Qed.

Lemma answers_next (hash : JSString) (w0 : World) (n : nat) :
  answers hash w0 (S n) = answers hash w0 n ++ [nthStatus hash (S n) w0].
Proof.
  unfold answers. rewrite seq_S, map_app. reflexivity.
Qed.

Lemma printed_app (l1 l2 : list ConsoleLine) :
  printed (l1 ++ l2) = printed l1 ++ printed l2.
Proof. apply flat_map_app. Qed.

Lemma answered_app (l1 l2 : list Lookup) :
  answered (l1 ++ l2) = answered l1 ++ answered l2.
Proof. apply flat_map_app. Qed.

Lemma answered_length (calls : list Lookup) :
  (length (answered calls) <= length calls)%nat.
Proof.
  induction calls as [| [| s] calls IH]; simpl; lia.
Qed.

(** The node answering call [i] adds its status to those on their way
    back. *)
Lemma answered_answer (s : TxStatus) (calls : list Lookup) :
  forall i, nth_error calls i = Some Asked ->
  Permutation (answered (answer i s calls)) (s :: answered calls) /\
  length (answer i s calls) = length calls.
Proof.
  induction calls as [| call calls IH]; intros i Hi.
  - destruct i; discriminate Hi.
  - destruct i as [| i].
    + injection Hi as ->. split; reflexivity.
    + destruct (IH i Hi) as [Hp Hl]. cbn [answer length].
      split; [|rewrite Hl; reflexivity].
      destruct call as [| s']; cbn [answered flat_map app].
      * exact Hp.
      * apply perm_trans with (s' :: s :: answered calls);
          [apply perm_skip; exact Hp | apply perm_swap].
Qed.

(** The answer of call [i] coming back takes its status from those on
    their way. *)
Lemma answered_finish (s : TxStatus) (calls : list Lookup) :
  forall i, nth_error calls i = Some (Answered s) ->
  Permutation (answered calls) (s :: answered (finish i calls)) /\
  length calls = S (length (finish i calls)).
Proof.
  induction calls as [| call calls IH]; intros i Hi.
  - destruct i; discriminate Hi.
  - destruct i as [| i].
    + injection Hi as ->. split; reflexivity.
    + destruct (IH i Hi) as [Hp Hl]. cbn [finish length].
      split; [|rewrite Hl; reflexivity].
      destruct call as [| s']; cbn [answered flat_map app].
      * exact Hp.
      * apply perm_trans with (s' :: s :: answered (finish i calls));
          [apply perm_skip; exact Hp | apply perm_swap].
Qed.

Lemma callbackLines_app_bounded (later : list ConsoleLine) (n : nat) :
  forall lines, (length lines <= n)%nat ->
  callbackLines lines = true ->
  callbackLines (lines ++ later) = callbackLines later.
Proof.
  induction n as [| n IH]; intros lines Hlen Hok.
  - destruct lines; [reflexivity | simpl in Hlen; lia].
  - destruct lines as [| line lines]; [reflexivity|].
    destruct line as [s | s |]; try discriminate Hok.
    cbn [app callbackLines] in *.
    destruct (isPending s).
    + apply IH; [simpl in Hlen; lia | exact Hok].
    + destruct lines as [| [s' | s' |] lines']; try discriminate Hok.
      cbn [app]. apply IH; [simpl in Hlen; lia | exact Hok].
Qed.

(** The lines of callbacks followed by the lines of callbacks. *)
Lemma callbackLines_app (lines later : list ConsoleLine) :
  callbackLines lines = true ->
  callbackLines (lines ++ later) = callbackLines later.
Proof.
  apply (@callbackLines_app_bounded later (length lines)). apply Nat.le_refl.
Qed.

(** The node answers a call from the state of the chain. *)
Lemma onEvent_node_answers
  (hash : JSString) (i : nat) (p : Poller) (w : World) :
  nth_error (underWay p) i = Some Asked ->
  onEvent hash (NodeAnswers i) (p, w) =
  ({| elapsed := elapsed p; intervalSet := intervalSet p;
      status := status p; launches := launches p;
      underWay := answer i (fst (lookup hash w)) (underWay p);
      console := console p |}, snd (lookup hash w)).
Proof.
  intros Hi. unfold onEvent. rewrite Hi, getTransactionStatus_lookup.
  reflexivity.
Qed.

(** Every event keeps the timer consistent. *)
Lemma onEvent_consistent
  (hash : JSString) (w0 : World) (e : Event) (pw : Poller * World) :
  Consistent hash w0 pw -> Consistent hash w0 (onEvent hash e pw).
Proof.
  destruct pw as [p w].
  intros [Hl [Hle [Hset [body [n [Hc [Hlines [Hint [Hcount [Hperm Hw]]]]]]]]]].
  cbn [fst snd] in *.
  destruct e as [| i | i].
  - (* the timer expires *)
    unfold onEvent. destruct (intervalSet p) eqn:Eset.
    + specialize (Hset eq_refl).
      unfold Consistent. cbn [fst snd elapsed intervalSet launches underWay console].
      rewrite !length_app. cbn [length].
      replace (length (launches p) + 1)%nat with (S (length (launches p)))
        by lia.
      rewrite expiries_next, <- Hl, Hset.
      assert (Ht : (pollInterval * Z.of_nat (length (launches p)) + pollInterval
                    = pollInterval * Z.of_nat (S (length (launches p))))%Z)
        by lia.
      rewrite Ht.
      split; [reflexivity|]. split; [lia|]. split; [reflexivity|].
      exists body, n. rewrite answered_app. cbn [answered flat_map app].
      rewrite app_nil_r.
      repeat split; try assumption. lia.
    + unfold Consistent. cbn [fst snd elapsed intervalSet launches underWay console].
      split; [exact Hl|]. split; [unfold pollInterval in *; lia|].
      split; [discriminate|].
      exists body, n. repeat split; assumption.
  - (* the node answers a call *)
    destruct (nth_error (underWay p) i) as [[| s] |] eqn:Ei;
      [| unfold onEvent; rewrite Ei;
         split; [exact Hl|]; split; [exact Hle|]; split; [exact Hset|];
         exists body, n; repeat split; assumption
       | unfold onEvent; rewrite Ei;
         split; [exact Hl|]; split; [exact Hle|]; split; [exact Hset|];
         exists body, n; repeat split; assumption ].
    rewrite onEvent_node_answers by exact Ei.
    destruct (@answered_answer (fst (lookup hash w)) (underWay p) i Ei)
      as [Hp Hlen].
    unfold Consistent. cbn [fst snd elapsed intervalSet launches underWay console].
    split; [exact Hl|]. split; [exact Hle|]. split; [exact Hset|].
    exists body, (S n). rewrite Hlen.
    repeat split; try assumption.
    + rewrite answers_next.
      assert (Hs : fst (lookup hash w) = nthStatus hash (S n) w0).
      { unfold nthStatus. rewrite <- Hw. reflexivity. }
      rewrite Hs in *.
      apply perm_trans
        with (printed body ++ nthStatus hash (S n) w0 :: answered (underWay p)).
      * apply Permutation_app_head. exact Hp.
      * apply perm_trans
          with (nthStatus hash (S n) w0
                  :: printed body ++ answered (underWay p)).
        -- apply Permutation_sym. apply Permutation_middle.
        -- apply perm_trans
             with (nthStatus hash (S n) w0 :: answers hash w0 n).
           ++ apply perm_skip. exact Hperm.
           ++ apply Permutation_cons_append.
    + rewrite afterLookups_next, <- Hw. reflexivity.
  - (* an answer comes back *)
    destruct (nth_error (underWay p) i) as [[| s] |] eqn:Ei;
      [ unfold onEvent; rewrite Ei;
        split; [exact Hl|]; split; [exact Hle|]; split; [exact Hset|];
        exists body, n; repeat split; assumption
      | 
      | unfold onEvent; rewrite Ei;
        split; [exact Hl|]; split; [exact Hle|]; split; [exact Hset|];
        exists body, n; repeat split; assumption ].
    destruct (@answered_finish s (underWay p) i Ei) as [Hp Hlen].
    assert (Hperm' : Permutation
                       ((printed body ++ [s]) ++ answered (finish i (underWay p)))
                       (answers hash w0 n)).
    { apply perm_trans with (printed body ++ answered (underWay p));
        [|exact Hperm].
      rewrite <- app_assoc. cbn [app].
      apply Permutation_app_head. apply Permutation_sym. exact Hp. }
    unfold onEvent. rewrite Ei. destruct (isPending s) eqn:Es.
    + unfold Consistent.
      cbn [fst snd elapsed intervalSet launches underWay console].
      split; [exact Hl|]. split; [exact Hle|]. split; [exact Hset|].
      exists (body ++ [UpdatedStatus s]), n.
      rewrite printed_app. cbn [printed flat_map app].
      rewrite forallb_app. cbn [forallb]. rewrite Es, andb_true_r.
      rewrite length_app. cbn [length].
      repeat split; try assumption.
      * rewrite Hc. reflexivity.
      * rewrite callbackLines_app by exact Hlines.
        cbn [callbackLines]. rewrite Es. reflexivity.
      * lia.
    + unfold Consistent.
      cbn [fst snd elapsed intervalSet launches underWay console].
      split; [exact Hl|]. split; [exact Hle|]. split; [discriminate|].
      exists (body ++ [UpdatedStatus s; Completed]), n.
      rewrite printed_app. cbn [printed flat_map app].
      rewrite forallb_app. cbn [forallb]. rewrite Es.
      rewrite length_app. cbn [length].
      repeat split; try assumption.
      * rewrite Hc. reflexivity.
      * rewrite callbackLines_app by exact Hlines.
        cbn [callbackLines]. rewrite Es. reflexivity.
      * cbn [andb]. rewrite andb_false_r. reflexivity.
      * lia.
Qed.

Lemma run_consistent (hash : JSString) (w0 : World) (events : list Event) :
  forall pw, Consistent hash w0 pw -> Consistent hash w0 (run hash events pw).
Proof.
  induction events as [| e events IH]; intros pw Hpw; [exact Hpw|].
  cbn [run]. apply IH. apply onEvent_consistent. exact Hpw.
Qed.

Lemma startPolling_consistent (hash : JSString) (w0 : World) :
  Consistent hash w0 (startPolling hash w0).
Proof.
  rewrite startPolling_lookup. unfold Consistent.
  cbn [fst snd elapsed intervalSet launches underWay console length].
  split; [reflexivity|]. split; [unfold pollInterval; lia|].
  split; [intros _; unfold pollInterval; lia|].
  exists [], 0%nat. repeat split. apply perm_nil.
Qed.

(** Once the interval is cleared it stays cleared, and no expiry calls
    the callback any more. *)
Lemma run_cleared (hash : JSString) (later : list Event) :
  forall pw : Poller * World,
  intervalSet (fst pw) = false ->
  intervalSet (fst (run hash later pw)) = false /\
  launches (fst (run hash later pw)) = launches (fst pw).
Proof.
  induction later as [| e later IH]; intros [p w] Hclr;
    [split; [exact Hclr | reflexivity]|].
  cbn [run fst] in *.
  assert (Hstep : intervalSet (fst (onEvent hash e (p, w))) = false /\
                  launches (fst (onEvent hash e (p, w))) = launches p).
  { destruct e as [| i | i]; unfold onEvent.
    - rewrite Hclr. split; reflexivity.
    - destruct (nth_error (underWay p) i) as [[| s] |];
        [|split; [exact Hclr | reflexivity]..].
      destruct (Agent.getTransactionStatus hash w) as [[s | e] w'];
        split; try exact Hclr; reflexivity.
    - destruct (nth_error (underWay p) i) as [[| s] |];
        [split; [exact Hclr | reflexivity]| |split; [exact Hclr | reflexivity]].
      destruct (isPending s); split; try exact Hclr; reflexivity. }
  destruct Hstep as [Hs1 Hs2].
  destruct (IH (onEvent hash e (p, w)) Hs1) as [Hr1 Hr2].
  split; [exact Hr1|]. rewrite Hr2. exact Hs2.
Qed.

(** One period of the run in which every call is answered at once. *)
Lemma promptly_period
  (hash : JSString) (n : nat) (p : Poller) (w : World) :
  intervalSet p = true -> underWay p = [] ->
  run hash (promptly (S n)) (p, w) =
  run hash (promptly n)
    (if isPending (fst (lookup hash w)) then
       {| elapsed := elapsed p + pollInterval; intervalSet := true;
          status := fst (lookup hash w);
          launches := launches p ++ [(elapsed p + pollInterval)%Z];
          underWay := [];
          console := console p ++ [UpdatedStatus (fst (lookup hash w))] |}
     else
       {| elapsed := elapsed p + pollInterval; intervalSet := false;
          status := fst (lookup hash w);
          launches := launches p ++ [(elapsed p + pollInterval)%Z];
          underWay := [];
          console := console p ++
            [UpdatedStatus (fst (lookup hash w)); Completed] |},
     snd (lookup hash w)).
Proof.
  intros Hset Hnone. cbn [promptly run].
  unfold onEvent at 3. rewrite Hset, Hnone. cbn [app].
  rewrite onEvent_node_answers by reflexivity.
  cbn [elapsed intervalSet status launches underWay console answer].
  unfold onEvent.
  cbn [elapsed intervalSet status launches underWay console nth_error finish].
  destruct (isPending (fst (lookup hash w))); reflexivity.
Qed.

Lemma promptly_cleared (hash : JSString) (n : nat) :
  forall (p : Poller) (w : World),
  intervalSet p = false -> underWay p = [] ->
  run hash (promptly n) (p, w) =
  ({| elapsed := elapsed p + pollInterval * Z.of_nat n;
      intervalSet := false; status := status p; launches := launches p;
      underWay := []; console := console p |}, w).
Proof.
  induction n as [| n IH]; intros p w Hclr Hnone.
  - destruct p as [t b s l u c].
    cbn [promptly run elapsed intervalSet status launches underWay console] in *.
    subst b u. f_equal. f_equal. unfold pollInterval. lia.
  - cbn [promptly run].
    replace (onEvent hash TimerExpires (p, w))
      with ({| elapsed := elapsed p + pollInterval; intervalSet := false;
               status := status p; launches := launches p;
               underWay := []; console := console p |}, w)
      by (unfold onEvent; rewrite Hclr, Hnone; reflexivity).
    cbn [onEvent underWay nth_error].
    rewrite IH by reflexivity.
    cbn [elapsed intervalSet status launches underWay console].
    f_equal. f_equal. unfold pollInterval. lia.
Qed.

Lemma later_expiries (start : Z) (m : nat) :
  (start + pollInterval)%Z ::
    map (fun k => (start + pollInterval + pollInterval * Z.of_nat k)%Z)
        (seq 1 m)
  = map (fun k => (start + pollInterval * Z.of_nat k)%Z) (seq 1 (S m)).
Proof.
  cbn [seq map].
  replace (start + pollInterval * Z.of_nat 1)%Z
    with (start + pollInterval)%Z by (unfold pollInterval; lia).
  apply f_equal. rewrite <- (seq_shift m 1), map_map.
  apply map_ext. intros k. unfold pollInterval. lia.
Qed.

(** The run in which every call is answered before the next expiry,
    on a chain whose first [m] answers after the first lookup are
    [Pending] and whose next answer is not: the callback is called
    [m + 1] times, each [Pending] answer is printed, then the other
    answer and the completion, and the interval is cleared. *)
Lemma promptly_until_answer (hash : JSString) (m : nat) :
  forall (n : nat) (p : Poller) (w : World) (s : TxStatus),
  intervalSet p = true -> underWay p = [] ->
  (forall j, (j < m)%nat -> nthStatus hash j w = Pending) ->
  nthStatus hash m w = s ->
  isPending s = false ->
  (m < n)%nat ->
  run hash (promptly n) (p, w) =
  ({| elapsed := elapsed p + pollInterval * Z.of_nat n;
      intervalSet := false; status := s;
      launches := launches p ++
        map (fun k => (elapsed p + pollInterval * Z.of_nat k)%Z) (seq 1 (S m));
      underWay := [];
      console := console p ++ repeat (UpdatedStatus Pending) m ++
                 [UpdatedStatus s; Completed] |},
   afterLookups hash (S m) w).
Proof.
  induction m as [| m IH]; intros n p w s Hset Hnone Hpend Hs Hnp Hlt.
  - destruct n as [| n]; [lia|].
    rewrite promptly_period by assumption.
    unfold nthStatus in Hs. cbn [afterLookups] in Hs. rewrite Hs, Hnp.
    rewrite promptly_cleared by reflexivity.
    cbn [elapsed intervalSet status launches underWay console
         afterLookups repeat app seq map].
    replace (elapsed p + pollInterval + pollInterval * Z.of_nat n)%Z
      with (elapsed p + pollInterval * Z.of_nat (S n))%Z
      by (unfold pollInterval; lia).
    replace (elapsed p + pollInterval * Z.of_nat 1)%Z
      with (elapsed p + pollInterval)%Z
      by (unfold pollInterval; lia).
    reflexivity.
  - destruct n as [| n]; [lia|].
    rewrite promptly_period by assumption.
    assert (Hfirst : fst (lookup hash w) = Pending) by (apply (Hpend O); lia).
    rewrite Hfirst. cbn [isPending].
    rewrite (IH n _ _ s); try reflexivity; try assumption; try lia.
    + cbn [elapsed intervalSet status launches underWay console afterLookups].
      rewrite <- !app_assoc. cbn [repeat app].
      rewrite later_expiries.
      replace (elapsed p + pollInterval + pollInterval * Z.of_nat n)%Z
        with (elapsed p + pollInterval * Z.of_nat (S n))%Z
        by (unfold pollInterval; lia).
      reflexivity.
    + intros j Hj. apply (Hpend (S j)). lia.
Qed.


End PollFacts.

(** ** The agent's parser and its patterns *)

Section PatternFacts.
Import Json Agent.

Lemma takeWhile_dropWhile (p : N -> bool) (s : JSString) :
  s = takeWhile p s ++ dropWhile p s.
Proof.
  induction s as [| c s IH]; simpl; [reflexivity|].
  destruct (p c); simpl; [f_equal; exact IH | reflexivity].
Qed.

Lemma takeWhile_all (p : N -> bool) (s : JSString) :
  forallb p (takeWhile p s) = true.
Proof.
  induction s as [| c s IH]; simpl; [reflexivity|].
  destruct (p c) eqn:E; simpl; [rewrite E; exact IH | reflexivity].
Qed.

Lemma dropWhile_head (p : N -> bool) (s : JSString) (c : N) (rest : JSString) :
  dropWhile p s = c :: rest -> p c = false.
Proof.
  induction s as [| d s IH]; simpl; [discriminate|].
  destruct (p d) eqn:E; [exact IH|].
  intros E'; inversion E'; subst. exact E.
Qed.

Lemma skipn_label (label rest : JSString) :
  skipn (length label) (label ++ rest) = rest.
Proof. induction label as [| c l IH]; simpl; [reflexivity | exact IH]. Qed.

(** A line terminator is white space. *)
Lemma lineTerminator_whiteSpace (c : N) :
  isLineTerminator c = true -> isWhiteSpace c = true.
Proof.
  unfold isLineTerminator. rewrite !orb_true_iff, !N.eqb_eq.
  intros [[[-> | ->] | ->] | ->]; reflexivity.
Qed.

(** The leftmost match is a match at some position of the input. *)
Lemma firstMatch_sound (matchAt : JSString -> option JSString)
  (s capture : JSString) :
  firstMatch matchAt s = Some capture ->
  exists pre rest, s = pre ++ rest /\ matchAt rest = Some capture.
Proof.
  induction s as [| c s IH]; simpl.
  - destruct (matchAt []) eqn:E; [|discriminate].
    intros E'; inversion E'; subst. exists [], []. split; [reflexivity | exact E].
  - destruct (matchAt (c :: s)) eqn:E.
    + intros E'; inversion E'; subst.
      exists [], (c :: s). split; [reflexivity | exact E].
    + intros Hrest. destruct (IH Hrest) as [pre [rest [-> Hm]]].
      exists (c :: pre), rest. split; [reflexivity | exact Hm].
Qed.

(** A match anywhere makes the search succeed. *)
Lemma firstMatch_complete (matchAt : JSString -> option JSString)
  (pre rest capture : JSString) :
  matchAt rest = Some capture ->
  exists capture', firstMatch matchAt (pre ++ rest) = Some capture'.
Proof.
  intros Hm. induction pre as [| c pre IH]; simpl.
  - destruct rest; simpl; rewrite Hm; eexists; reflexivity.
  - destruct (matchAt (c :: pre ++ rest)); [eexists; reflexivity | exact IH].
Qed.

Lemma labelled_sound (label : JSString) (class : N -> bool)
  (s capture : JSString) :
  labelled label class s = Some capture ->
  exists ws post,
    s = label ++ ws ++ capture ++ post /\
    forallb isWhiteSpace ws = true /\
    capture <> [] /\ forallb class capture = true.
Proof.
  unfold labelled. destruct (startsWith label s) eqn:El; [|discriminate].
  apply startsWith_spec in El. destruct El as [r ->].
  rewrite skipn_label.
  destruct (takeWhile class (dropWhile isWhiteSpace r)) as [| c cap] eqn:Ec;
    [discriminate|].
  intros E; inversion E; subst capture. clear E.
  exists (takeWhile isWhiteSpace r),
         (dropWhile class (dropWhile isWhiteSpace r)).
  repeat split.
  - rewrite <- Ec, <- takeWhile_dropWhile, <- takeWhile_dropWhile. reflexivity.
  - apply takeWhile_all.
  - discriminate.
  - rewrite <- Ec. apply takeWhile_all.
Qed.

Lemma explanationAt_sound (s capture : JSString) :
  explanationAt s = Some capture ->
  exists ws post,
    s = js "explanation:" ++ ws ++ capture ++ post /\
    forallb isWhiteSpace ws = true /\
    capture <> [] /\ forallb notLineTerminator capture = true.
Proof.
  unfold explanationAt.
  destruct (startsWith (js "explanation:") s) eqn:El; [|discriminate].
  apply startsWith_spec in El. destruct El as [r ->].
  change 12%nat with (length (js "explanation:")). rewrite skipn_label.
  destruct (dropWhile isWhiteSpace r) as [| c rest] eqn:Ed.
  - destruct (find notLineTerminator (rev (takeWhile isWhiteSpace r)))
      as [c|] eqn:Ef; [|discriminate].
    intros E; inversion E; subst capture. clear E.
    apply find_some in Ef. destruct Ef as [Hin Hc].
    apply in_rev in Hin. apply in_split in Hin.
    destruct Hin as [w1 [w2 Hw]].
    pose proof (takeWhile_all isWhiteSpace r) as Hall. rewrite Hw in Hall.
    rewrite forallb_app in Hall. apply andb_true_iff in Hall.
    exists w1, w2. repeat split.
    + rewrite (takeWhile_dropWhile isWhiteSpace r) at 1.
      rewrite Ed, app_nil_r, Hw. reflexivity.
    + apply Hall.
    + discriminate.
    + simpl. rewrite Hc. reflexivity.
  - intros E; injection E as <-.
    assert (Hc : notLineTerminator c = true).
    { unfold notLineTerminator. apply dropWhile_head in Ed.
      destruct (isLineTerminator c) eqn:Elt; [|reflexivity].
      apply lineTerminator_whiteSpace in Elt. congruence. }
    exists (takeWhile isWhiteSpace r), (dropWhile notLineTerminator (c :: rest)).
    repeat split.
    + simpl dropWhile. rewrite Hc. cbn [app].
      rewrite <- (takeWhile_dropWhile notLineTerminator rest), <- Ed.
      rewrite <- takeWhile_dropWhile. reflexivity.
    + apply takeWhile_all.
    + rewrite Hc. discriminate.
    + rewrite Hc. simpl. rewrite Hc. apply takeWhile_all.
Qed.

Context `{JSEngine}.

(** C6 (amended).  In the single-network agent a response on which the
    structured decoding fails is given to the three patterns ([to:],
    [amount:], [explanation:], each followed by white space and its
    capture); the parser returns what they capture, and fails with the
    malformed response only if one of them does not match; the patterns
    are not tried when the structured decoding succeeds.  The
    multi-network faucet has no such fallback: a response that does not
    decode is a malformed response. *)
Theorem parseAIResponse_fallback (response : JSString) :
  (forall intent,
     Agent.parseBody response = Normal intent ->
     Agent.parseAIResponse response = Normal intent) /\
  (forall e,
     Agent.parseBody response = Throw e ->
     Agent.parseAIResponse response =
     match regexFallback response with
     | Some intent => Normal intent
     | None => Throw Agent.MalformedResponse
     end) /\
  (forall e,
     Agent.parseAIResponse response = Throw e ->
     e = Agent.MalformedResponse /\ regexFallback response = None /\
     exists e', Agent.parseBody response = Throw e') /\
  (forall intent,
     regexFallback response = Some intent ->
     (exists pre ws post,
        response = pre ++ js "to:" ++ ws ++ to intent ++ post /\
        forallb isWhiteSpace ws = true /\
        to intent <> [] /\ forallb isToChar (to intent) = true) /\
     (exists pre ws post,
        response = pre ++ js "amount:" ++ ws ++ amount intent ++ post /\
        forallb isWhiteSpace ws = true /\
        amount intent <> [] /\ forallb isAmountChar (amount intent) = true) /\
     (exists pre ws capture post,
        response = pre ++ js "explanation:" ++ ws ++ capture ++ post /\
        forallb isWhiteSpace ws = true /\
        capture <> [] /\ forallb notLineTerminator capture = true /\
        explanation intent = trim capture)) /\
  (forall e,
     JSON_parse (Faucet.cleanResponse response) = Throw e ->
     Faucet.parseAIResponse response = Throw Faucet.MalformedResponse).
Proof.
  unfold Agent.parseAIResponse, tryCatch.
  split; [|split; [|split; [|split]]].
  - intros intent E. rewrite E. reflexivity.
  - intros e E. rewrite E. reflexivity.
  - intros e. destruct (Agent.parseBody response) as [i | e'] eqn:E;
      [discriminate|].
    destruct (regexFallback response); [discriminate|].
    intros E'; inversion E'. repeat split. exists e'. reflexivity.
  - intros intent. unfold regexFallback, toMatch, amountMatch, explanationMatch.
    destruct (firstMatch (labelled (js "to:") isToChar) response)
      as [t|] eqn:Et; [|discriminate].
    destruct (firstMatch (labelled (js "amount:") isAmountChar) response)
      as [a|] eqn:Ea; [|discriminate].
    destruct (firstMatch explanationAt response) as [x|] eqn:Ex;
      [|discriminate].
    intros E; inversion E; subst intent; clear E. cbn [to amount explanation].
    split; [|split].
    + destruct (firstMatch_sound _ _ Et) as [pre [rest [-> Hm]]].
      destruct (labelled_sound _ _ _ Hm) as [ws [post [-> [Hws [Hne Hcl]]]]].
      exists pre, ws, post. repeat split; assumption.
    + destruct (firstMatch_sound _ _ Ea) as [pre [rest [-> Hm]]].
      destruct (labelled_sound _ _ _ Hm) as [ws [post [-> [Hws [Hne Hcl]]]]].
      exists pre, ws, post. repeat split; assumption.
    + destruct (firstMatch_sound _ _ Ex) as [pre [rest [-> Hm]]].
      destruct (explanationAt_sound _ Hm) as [ws [post [-> [Hws [Hne Hcl]]]]].
      exists pre, ws, x, post. repeat split; assumption.
  - intros e E. exact (parseAIResponse_undecoded _ E).
Qed.

End PatternFacts.

(** ** The functions at work on the reference instances *)

Section Examples.
Import Networks Json Viem Reference.

#[local] Existing Instance Reference.engine.
#[local] Existing Instance Reference.chains.
#[local] Existing Instance Reference.client.
#[local] Existing Instance Reference.wallet.

(** A well-formed response is returned as it was decoded: one request,
    no warnings. *)
Example parse_well_formed :
  exists intent,
    Faucet.parseAIResponse wellFormedResponse = Normal intent /\
    Faucet.field intent (js "to") = Some (JString recipient) /\
    Faucet.field intent (js "warnings") = None /\
    Faucet.field intent (js "networks") =
      Some (JArray [JObject [(js "name", JString (js "sepolia"));
                             (js "amount", JString (js "0.01"));
                             (js "symbol", JString (js "ETH"))]]).
Proof. eexists. repeat split; vm_compute; reflexivity. Qed.

Example parse_bad_recipient :
  Faucet.parseAIResponse badRecipientResponse = Throw Faucet.MalformedResponse.
Proof. vm_compute. reflexivity. Qed.

Example parse_error_signal :
  Faucet.parseAIResponse errorResponse = Throw Faucet.UnderstandingFailure.
Proof. vm_compute. reflexivity. Qed.

(** The check of [error] comes before the other checks: with a truthy
    [error] member a bad or empty recipient is not looked at. *)
Example parse_error_before_recipient :
  Faucet.parseAIResponse badRecipientWithError
    = Throw Faucet.UnderstandingFailure /\
  Faucet.parseAIResponse emptyRecipientWithError
    = Throw Faucet.UnderstandingFailure.
Proof. split; vm_compute; reflexivity. Qed.

(** An [error] member that cannot be printed: building the line for the
    console throws, and the parser fails with the malformed response. *)
Example parse_unprintable_error :
  Faucet.parseAIResponse unprintableErrorResponse
    = Throw Faucet.MalformedResponse.
Proof. vm_compute. reflexivity. Qed.

(** An [error] member of three backticks is emptied by the removal of
    the fence markers, and the response is returned as an intent. *)
Example parse_marked_error :
  exists intent,
    Faucet.parseAIResponse markedErrorResponse = Normal intent /\
    Faucet.field intent (js "error") = Some (JString []).
Proof. eexists. split; vm_compute; reflexivity. Qed.

(** The address test coerces what it is given to a string: a recipient
    that is an array holding an address passes it, and is returned as
    the array it is. *)
Example parse_array_recipient :
  exists intent,
    Faucet.parseAIResponse arrayRecipientResponse = Normal intent /\
    Faucet.field intent (js "to") = Some (JArray [JString recipient]).
Proof. eexists. split; vm_compute; reflexivity. Qed.

(** C4 (failing input).  A response that is the text of an object with
    no [error] member, a list of networks, an explanation, and a
    recipient in which three backticks stand after the [0x].  The
    recipient is no address: it is three code units too long and the
    address test rejects it.  The parser does not fail all the same:
    the removal of the fence markers, which runs over the whole
    response before it is decoded, cuts the three backticks out of the
    recipient, and the intent returned carries the address that is
    left. *)
Theorem recipient_with_fence_marker_is_cut :
  (exists v,
     JSON_parse markedRecipientResponse = Normal v /\
     Faucet.field v (js "to") = Some (JString markedRecipient) /\
     Faucet.field v (js "error") = None /\
     truthy (Faucet.field v (js "networks")) = true /\
     truthy (Faucet.field v (js "explanation")) = true) /\
  Faucet.testAddress markedRecipient = false /\
  length markedRecipient = (length recipient + 3)%nat /\
  (exists intent,
     Faucet.parseAIResponse markedRecipientResponse = Normal intent /\
     Faucet.field intent (js "to") = Some (JString recipient)) /\
  Faucet.parseAIResponse markedRecipientResponse
    <> Throw Faucet.MalformedResponse.
Proof.
  split; [eexists; repeat split; vm_compute; reflexivity|].
  split; [vm_compute; reflexivity|].
  split; [vm_compute; reflexivity|].
  split; [eexists; split; vm_compute; reflexivity|].
  vm_compute; discriminate.
Qed.

(** C5 (counterexample).  A response that is an object with an [error]
    member, the empty string, does not fail: the decoded object is
    returned. *)
Lemma falsy_error_member_returns_intent :
  exists v x,
    JSON_parse emptyErrorResponse = Normal v /\
    JSON_parse (Faucet.cleanResponse emptyErrorResponse) = Normal v /\
    Faucet.field v (js "error") = Some x /\
    Faucet.parseAIResponse emptyErrorResponse = Normal v /\
    Faucet.parseAIResponse emptyErrorResponse
      <> Throw Faucet.UnderstandingFailure.
Proof.
  eexists. eexists. split; [vm_compute; reflexivity|].
  split; [vm_compute; reflexivity|].
  split; [vm_compute; reflexivity|].
  split; [vm_compute; reflexivity|].
  vm_compute. discriminate.
Qed.


(** C9 (failing input).  The well-formed response in a fenced code
    block is parsed as the bare response is, also with a space before
    the block and a line feed after it: what is decoded is the payload,
    the markers and the white space gone.  With one line feed before
    the opening fence it is not.  The pattern then matches the line
    feed with the three backticks, by its second alternative, before
    the first alternative gets at the opening fence with its tag: the
    tag stays, what is decoded starts with [json], and the parser fails
    with the malformed response. *)
Theorem fenced_block_after_line_feed_is_rejected :
  (exists intent,
     Faucet.parseAIResponse wellFormedResponse = Normal intent /\
     Faucet.parseAIResponse (Faucet.fenced wellFormedResponse)
       = Normal intent /\
     Faucet.parseAIResponse (32 :: Faucet.fenced wellFormedResponse ++ [10])
       = Normal intent) /\
  Faucet.cleanResponse (Faucet.fenced wellFormedResponse)
    = wellFormedResponse /\
  Faucet.cleanResponse (32 :: Faucet.fenced wellFormedResponse ++ [10])
    = wellFormedResponse /\
  Faucet.cleanResponse (10 :: Faucet.fenced wellFormedResponse)
    = js "json" ++ 10 :: wellFormedResponse /\
  Faucet.parseAIResponse (10 :: Faucet.fenced wellFormedResponse)
    = Throw Faucet.MalformedResponse.
Proof.
  split; [eexists; repeat split; vm_compute; reflexivity|].
  repeat split; vm_compute; reflexivity.
Qed.

(** C6 (counterexample).  On a response in labelled lines the agent's
    three patterns match, the structured decoding of the faucet fails,
    and the faucet's parser fails with the malformed response all the
    same: it tries no pattern. *)
Lemma faucet_parser_has_no_fallback :
  JSON_parse (Faucet.cleanResponse labelledResponse)
    = Throw (ErrorObject syntaxErrorMessage) /\
  Agent.regexFallback labelledResponse =
    Some {| Agent.to := recipient; Agent.amount := js "0.01";
            Agent.explanation := js "faucet drip" |} /\
  Agent.parseAIResponse labelledResponse =
    Normal {| Agent.to := recipient; Agent.amount := js "0.01";
              Agent.explanation := js "faucet drip" |} /\
  Faucet.parseAIResponse labelledResponse = Throw Faucet.MalformedResponse.
Proof. repeat split; vm_compute; reflexivity. Qed.

(** C3 (counterexample).  With nothing on Sepolia and 0.01 ether
    requested, the faucet's message shows the balance and not the
    requested amount. *)
Lemma drained_message_omits_requested_amount :
  parseEther (js "0.01") = Normal 10000000000000000%Z /\
  fst (getBalance (publicClient (createNetworkConfig sepolia
                                   {| symbol := js "ETH"; amount := js "0.01" |}))
                  (address account) (drained (chain_id sepolia)))
    = Normal 0%Z /\
  fst (Faucet.makeTransaction recipient (js "0.01") (js "sepolia") drained) =
    Throw (ErrorObject
      (js "Faucet is currently drained for sepolia. We will refill it soon. Current balance: 0 ETH")) /\
  includes
    (js "Faucet is currently drained for sepolia. We will refill it soon. Current balance: 0 ETH")
    (js "0.01") = false.
Proof. repeat split; vm_compute; reflexivity. Qed.

(** C3 (witness). *)
Lemma makeTransaction_insufficient_funds_witness :
  parseEther (js "0.01") = Normal 10000000000000000%Z /\
  (0 < 10000000000000000)%Z /\
  fst (Agent.makeTransaction recipient (js "0.01") drained) =
    Throw (ErrorObject
      (js "Insufficient funds. Balance: 0 ETH, Trying to send: 0.01 ETH")).
Proof.
  split; [vm_compute; reflexivity|]. split; [reflexivity|].
  refine (proj1 (proj1 (@makeTransaction_insufficient_funds
                          Reference.chains Reference.client Reference.wallet
                          recipient (js "0.01") drained 0%Z
                          10000000000000000%Z _ _) _ _)).
  - vm_compute; reflexivity.
  - reflexivity.
  - vm_compute; reflexivity.
Defined.


(** The agent on a chain that mines the transaction after four empty
    lookups, every call answered before the next expiry: three periods
    print [Pending], the fourth prints [Success] and the completion,
    the interval is cleared and the callback is called no more. *)
Example agent_polls_until_mined :
  fst (Agent.run (js "0x0") (Agent.promptly 6)
         (Agent.startPolling (js "0x0") (funded 4))) =
  {| Agent.elapsed := 30000; Agent.intervalSet := false;
     Agent.status := Success;
     Agent.launches := [5000; 10000; 15000; 20000]%Z;
     Agent.underWay := [];
     Agent.console :=
       [ Agent.InitialStatus Pending;
         Agent.UpdatedStatus Pending;
         Agent.UpdatedStatus Pending;
         Agent.UpdatedStatus Pending;
         Agent.UpdatedStatus Success;
         Agent.Completed ] |}.
Proof. vm_compute. reflexivity. Qed.

(** Answers slower than the period: two calls are under way when the
    first answer comes back, and each prints its status and the
    completion. *)
Example agent_calls_overlap :
  fst (Agent.run (js "0x0")
         [Agent.TimerExpires; Agent.TimerExpires;
          Agent.NodeAnswers 0; Agent.NodeAnswers 1;
          Agent.AnswerArrives 0; Agent.TimerExpires; Agent.AnswerArrives 0]
         (Agent.startPolling (js "0x0") (funded 1))) =
  {| Agent.elapsed := 15000; Agent.intervalSet := false;
     Agent.status := Success;
     Agent.launches := [5000; 10000]%Z;
     Agent.underWay := [];
     Agent.console :=
       [ Agent.InitialStatus Pending;
         Agent.UpdatedStatus Success;
         Agent.Completed;
         Agent.UpdatedStatus Success;
         Agent.Completed ] |}.
Proof. vm_compute. reflexivity. Qed.

(** A batch in which one name is unknown, one chain is drained and one
    endpoint is down: each failure stays with its own request. *)
Example mixed_batch :
  fst (Faucet.makeMultipleTransactions recipient
         [fooRequest; polygonRequest; sepoliaRequest; abstractRequest] mixed) =
  Normal
    [ {| Faucet.network := js "foo";
         Faucet.result := Faucet.NotSent (js "Network foo not configured") |};
      {| Faucet.network := js "polygon";
         Faucet.result := Faucet.NotSent
           (js "Faucet is currently drained for polygon. We will refill it soon. Current balance: 0 POL") |};
      {| Faucet.network := js "sepolia";
         Faucet.result := Faucet.NotSent (js "HTTP request failed.") |};
      {| Faucet.network := js "abstract";
         Faucet.result := Faucet.Sent (js "0x0") Pending |} ].
Proof. vm_compute. reflexivity. Qed.

Example select_named_networks :
  Faucet.getNetworksFromInput (js "send to 0x2d on Polygon and SEPOLIA") =
  [js "sepolia"; js "polygon"].
Proof. vm_compute. reflexivity. Qed.

Example select_all_networks :
  Faucet.getNetworksFromInput (js "send tokens on ALL networks, not sepolia") =
  getAvailableNetworks.
Proof. vm_compute. reflexivity. Qed.

End Examples.

(* ================================================================== *)
(** * Further properties of the sources *)
(* ================================================================== *)

(** ** The registry and what is built from it *)

Section RegistryRoundTrip.
Import Networks.
Context `{ViemChains}.

Lemma getOwn_registered (name : JSString) (cfg : NetworkConfig) :
  getOwn networks name = Some cfg ->
  In (name, chain cfg, faucet cfg) registrations /\
  cfg = createNetworkConfig (chain cfg) (faucet cfg).
Proof.
  unfold networks, registrations. cbn [List.map getOwn].
  repeat match goal with
         | |- context [jsEqb ?k name] =>
           let E := fresh "E" in
           destruct (jsEqb k name) eqn:E;
           [apply jsEqb_eq in E; subst name;
            intros F; injection F as <-; split; [simpl; tauto | reflexivity] |]
         end.
  discriminate.
Qed.

(** The enumeration and the lookup agree: the names [getAvailableNetworks]
    lists, each once, are the names [getNetwork] answers with a
    configuration of the registry; such a configuration is the one made
    from the entry of that name, its clients are bound to its chain, and
    its faucet symbol and amount are not empty. *)
Theorem registry_lookup_enumeration (name : JSString) :
  NoDup getAvailableNetworks /\
  (In name getAvailableNetworks <-> exists cfg, getNetwork name = Own cfg) /\
  (forall cfg,
     getNetwork name = Own cfg ->
     In (name, chain cfg, faucet cfg) registrations /\
     pc_chain (publicClient cfg) = chain cfg /\
     (forall (Account : Type) (a : Account),
        wc_chain (walletClient cfg a) = chain cfg) /\
     symbol (faucet cfg) <> [] /\ amount (faucet cfg) <> []).
Proof.
  split; [|split].
  - rewrite getAvailableNetworks_enumeration.
    repeat constructor; simpl; intuition discriminate.
  - split.
    + rewrite getAvailableNetworks_enumeration. simpl.
      intros [<- | [<- | [<- | [<- | [<- | []]]]]];
        eexists; reflexivity.
    + intros [cfg E].
      destruct (getNetwork_total name) as [[cfg' [_ Hin]] | [[E' _] | E']];
        [exact Hin | congruence | congruence].
  - intros cfg E. unfold getNetwork in E.
    destruct (getOwn networks name) as [cfg'|] eqn:Eo.
    + injection E as ->. destruct (getOwn_registered _ Eo) as [Hin Hmk].
      split; [exact Hin|]. rewrite Hmk. cbn.
      split; [reflexivity|]. split; [reflexivity|].
      simpl in Hin.
      repeat (destruct Hin as [F | Hin];
              [injection F as _ _ <-; split; discriminate |]).
      contradiction.
    + destruct (inObjectPrototype name); discriminate.
Qed.

(** The catalog put into the prompt lists the registered networks in
    the order of the enumeration, each with the faucet symbol and amount
    the lookup of its name gives. *)
Theorem networkConfigs_agrees_with_registry :
  List.map Faucet.cat_name Faucet.networkConfigs = getAvailableNetworks /\
  forall entry,
    In entry Faucet.networkConfigs ->
    exists cfg,
      getNetwork (Faucet.cat_name entry) = Own cfg /\
      Faucet.cat_symbol entry = symbol (faucet cfg) /\
      Faucet.cat_amount entry = amount (faucet cfg).
Proof.
  split; [reflexivity|].
  intros entry Hin. unfold Faucet.networkConfigs in Hin. simpl in Hin.
  repeat (destruct Hin as [<- | Hin];
          [eexists; split; [reflexivity | split; reflexivity] |]).
  contradiction.
Qed.

End RegistryRoundTrip.

(** ** Start-up *)

(** The key check lets a value through exactly when the variable is set
    to a zero, a lower-case [x] and sixty-four hexadecimal digits; the
    value is then passed on unchanged.  Anything else, a variable that
    is not set included, stops the start-up with the one message. *)
Theorem loadPrivateKey_accepts (env : option JSString) :
  (forall key,
     Faucet.loadPrivateKey env = Normal key <->
     env = Some key /\
     exists digits,
       key = 48 :: 120 :: digits /\ length digits = 64%nat /\
       Forall (fun c => Faucet.isHexDigit c = true) digits) /\
  (forall e,
     Faucet.loadPrivateKey env = Throw e ->
     e = ErrorObject Faucet.invalidKeyMessage).
Proof.
  assert (Hspec : forall s,
            Faucet.testPrivateKey s = true <->
            exists digits,
              s = 48 :: 120 :: digits /\ length digits = 64%nat /\
              Forall (fun c => Faucet.isHexDigit c = true) digits).
  { intros s. unfold Faucet.testPrivateKey. split.
    - destruct s as [| c0 [| c1 digits]]; try discriminate.
      rewrite !andb_true_iff, !N.eqb_eq, Nat.eqb_eq, forallb_forall.
      intros [[[-> ->] Hlen] Hhex]. exists digits.
      repeat split; try assumption. apply Forall_forall; exact Hhex.
    - intros [digits [-> [Hlen Hhex]]].
      rewrite !andb_true_iff, !N.eqb_eq, Nat.eqb_eq, forallb_forall.
      repeat split; try assumption. apply Forall_forall; exact Hhex. }
  unfold Faucet.loadPrivateKey. split.
  - intros key. destruct env as [s|]; cbv zeta.
    + destruct (Faucet.testPrivateKey s) eqn:Et; cbn [negb].
      * split.
        -- intros E; injection E as <-. split; [reflexivity|].
           apply Hspec; exact Et.
        -- intros [E _]; injection E as <-. reflexivity.
      * split; [discriminate|].
        intros [E Hk]; injection E as <-. apply Hspec in Hk. congruence.
    + split; [discriminate | intros [E _]; discriminate].
  - intros e.
    destruct (negb (Faucet.testPrivateKey
                      match env with Some s => s | None => js "undefined" end));
      [intros E; injection E as <-; reflexivity | discriminate].
Qed.

(** ** The outcomes of the faucet's parser *)

Section ParserOutcomes.
Import Json Faucet.
Context `{JSEngine}.

(** The parser lets two errors out and no other: whatever goes wrong in
    the [try] block (a syntax error, a read from [null], a coercion
    that throws, a failed check) leaves as the understanding failure or
    as the malformed response. *)
Theorem parseAIResponse_error_classes (response : JSString) (e : Thrown) :
  parseAIResponse response = Throw e ->
  e = UnderstandingFailure \/ e = MalformedResponse.
Proof.
  destruct (JSON_parse (cleanResponse response)) as [v | e'] eqn:E.
  - rewrite (parseAIResponse_decoded _ E), parseDecoded_cases.
    destruct (truthy (field v (js "error"))).
    + destruct (printable (field v (js "error")));
        intros F; injection F as <-; [left | right]; reflexivity.
    + destruct (_ && _); [discriminate|].
      intros F; injection F as <-. right; reflexivity.
  - rewrite (parseAIResponse_undecoded _ E).
    intros F; injection F as <-. right; reflexivity.
Qed.

(** What a caller may rely on when the parser returns: the value is the
    decoded response, an object, whose [to], [networks] and
    [explanation] members are truthy and whose [error] member is not.
    Nothing is said of the shape of [networks]. *)
Theorem parseAIResponse_returns_validated
  (response : JSString) (intent : JSValue) :
  parseAIResponse response = Normal intent ->
  JSON_parse (cleanResponse response) = Normal intent /\
  (exists props, intent = JObject props) /\
  truthy (field intent (js "error")) = false /\
  truthy (field intent (js "to")) = true /\
  truthy (field intent (js "networks")) = true /\
  truthy (field intent (js "explanation")) = true.
Proof.
  intros R.
  destruct (JSON_parse (cleanResponse response)) as [v | e'] eqn:E.
  - rewrite (parseAIResponse_decoded _ E), parseDecoded_cases in R.
    destruct (truthy (field v (js "error"))) eqn:Eerr; [discriminate|].
    destruct (truthy (field v (js "to"))) eqn:Eto;
      [|cbn [andb] in R; discriminate].
    destruct (truthy (field v (js "networks"))) eqn:Enet;
      [|cbn [andb] in R; discriminate].
    destruct (truthy (field v (js "explanation"))) eqn:Eexp;
      [|cbn [andb] in R; discriminate].
    cbn [andb] in R.
    destruct (addressAccepted (field v (js "to"))); [|discriminate].
    injection R as <-. repeat split; try assumption.
    destruct v as [| b | m e | s | items | props]; try discriminate Eto.
    exists props. reflexivity.
  - rewrite (parseAIResponse_undecoded _ E) in R. discriminate.
Qed.

End ParserOutcomes.

(** ** Code fences and the white space around them *)

Section FenceEdges.
Import Json Faucet.

Lemma trimStart_last (l : JSString) (c : N) :
  isWhiteSpace c = false ->
  exists l', trimStart (l ++ [c]) = l' ++ [c].
Proof.
  intros Hc. induction l as [| x l IH]; simpl.
  - rewrite Hc. exists []. reflexivity.
  - destruct (isWhiteSpace x); [exact IH|].
    exists (x :: l). reflexivity.
Qed.

(** [trim] keeps a first code unit that is no white space. *)
Lemma trim_head (c : N) (s : JSString) :
  isWhiteSpace c = false -> exists s', trim (c :: s) = c :: s'.
Proof.
  intros Hc. unfold trim, trimEnd. simpl trimStart. rewrite Hc.
  simpl rev. destruct (@trimStart_last (rev s) c Hc) as [l' E].
  rewrite E, rev_app_distr. simpl. exists (rev l'). reflexivity.
Qed.

Lemma trimStart_before (l t : JSString) (d : N) (u : JSString) :
  t = d :: u -> isWhiteSpace d = false ->
  exists l', trimStart (l ++ t) = l' ++ t.
Proof.
  intros -> Hd. induction l as [| x l IH]; simpl.
  - rewrite Hd. exists []. reflexivity.
  - destruct (isWhiteSpace x); [exact IH|]. exists (x :: l). reflexivity.
Qed.

(** [trim] keeps a prefix that neither starts nor ends with white
    space. *)
Lemma trim_keeps_prefix (pre s : JSString) (c : N) (t : JSString)
  (d : N) (u : JSString) :
  pre = c :: t -> isWhiteSpace c = false ->
  rev pre = d :: u -> isWhiteSpace d = false ->
  exists s', trim (pre ++ s) = pre ++ s'.
Proof.
  intros Hpre Hc Hrev Hd. unfold trim, trimEnd.
  assert (Hts : trimStart (pre ++ s) = pre ++ s).
  { rewrite Hpre. simpl. rewrite Hc. reflexivity. }
  rewrite Hts, rev_app_distr.
  destruct (@trimStart_before (rev s) (rev pre) d u Hrev Hd) as [l' ->].
  rewrite rev_app_distr, rev_involutive. exists (rev l'). reflexivity.
Qed.

(** No value starts with the letter [j]. *)
Lemma JSON_parse_letter_j (s : JSString) :
  JSON_parse (106 :: s) = Throw (ErrorObject syntaxErrorMessage).
Proof.
  unfold JSON_parse. rewrite Nat.add_comm. reflexivity.
Qed.

Lemma trimStart_whiteSpace_app (w z : JSString) :
  forallb isWhiteSpace w = true -> trimStart (w ++ z) = trimStart z.
Proof.
  induction w as [| c w IH]; simpl; [reflexivity|].
  intros Hw. apply andb_true_iff in Hw. destruct Hw as [Hc Hw].
  rewrite Hc. apply IH; exact Hw.
Qed.

Lemma trimStart_app_whiteSpace (x ws : JSString) :
  forallb isWhiteSpace ws = true ->
  trimStart (x ++ ws) = trimStart x ++ ws \/
  (trimStart (x ++ ws) = [] /\ trimStart x = []).
Proof.
  intros Hws. induction x as [| c x IH]; simpl.
  - right. split; [|reflexivity].
    rewrite <- (app_nil_r ws). rewrite trimStart_whiteSpace_app by exact Hws.
    reflexivity.
  - destruct (isWhiteSpace c); [exact IH|]. left. reflexivity.
Qed.

(** White space after a text is nothing to [trim]. *)
Lemma trim_app_whiteSpace (x ws : JSString) :
  forallb isWhiteSpace ws = true -> trim (x ++ ws) = trim x.
Proof.
  intros Hws. unfold trim.
  destruct (trimStart_app_whiteSpace x ws Hws) as [E | [E1 E2]].
  - rewrite E. unfold trimEnd. rewrite rev_app_distr.
    rewrite trimStart_whiteSpace_app; [reflexivity|].
    rewrite forallb_forall in *. intros c Hin. apply Hws.
    apply in_rev. exact Hin.
  - rewrite E1, E2. reflexivity.
Qed.

Lemma whiteSpace_not (c x : N) :
  isWhiteSpace c = true -> isWhiteSpace x = false -> (x =? c) = false.
Proof.
  intros Hc Hx. destruct (N.eqb_spec x c); [congruence | reflexivity].
Qed.

(** The scan keeps white space as it is. *)
Lemma replaceFences_whiteSpace (ws : JSString) :
  forallb isWhiteSpace ws = true -> replaceFences ws = ws.
Proof.
  induction ws as [| c ws IH]; [reflexivity|].
  intros Hws. simpl in Hws. apply andb_true_iff in Hws.
  destruct Hws as [Hc Hws].
  rewrite replaceFences_step, fenceMatch_unfold.
  destruct ws as [| d ws'].
  - rewrite !startsWith_cons.
    rewrite (@whiteSpace_not c 96 Hc) by reflexivity. cbn [andb].
    destruct (10 =? c); reflexivity.
  - simpl in Hws. apply andb_true_iff in Hws. destruct Hws as [Hd Hws'].
    rewrite !startsWith_cons.
    rewrite (@whiteSpace_not c 96 Hc) by reflexivity.
    rewrite (@whiteSpace_not d 96 Hd) by reflexivity.
    cbn [andb]. rewrite andb_false_r. rewrite IH; [reflexivity|].
    simpl. rewrite Hd. exact Hws'.
Qed.

(** The closing fence, dropped from between a payload and white space. *)
Lemma replaceFences_closing_fence_then (ws : JSString) (n : nat) :
  forallb isWhiteSpace ws = true ->
  forall p, (length p <= n)%nat ->
  replaceFences (p ++ 10 :: [96; 96; 96] ++ ws) = replaceFences p ++ ws.
Proof.
  intros Hws.
  assert (Hbt : replaceFences ([96; 96; 96] ++ ws) = ws).
  { cbn [app]. rewrite replaceFences_step, fenceMatch_unfold.
    destruct ws as [| c ws'].
    - reflexivity.
    - simpl in Hws. apply andb_true_iff in Hws. destruct Hws as [Hc Hws'].
      rewrite !startsWith_cons, !N.eqb_refl.
      rewrite (@whiteSpace_not c 106 Hc) by reflexivity.
      cbn [andb startsWith skipn].
      apply replaceFences_whiteSpace. simpl. rewrite Hc. exact Hws'. }
  assert (Hclose : replaceFences (10 :: [96; 96; 96] ++ ws) = ws).
  { rewrite replaceFences_step. cbn [app].
    change (fenceMatch (10 :: 96 :: 96 :: 96 :: ws)) with 4%nat.
    cbn [skipn]. apply replaceFences_whiteSpace. exact Hws. }
  induction n as [| n IH]; intros p Hlen.
  - destruct p; [exact Hclose | simpl in Hlen; lia].
  - destruct p as [| c p']; [exact Hclose|].
    cbn [app]. rewrite !replaceFences_step, !fenceMatch_unfold.
    change (c :: p' ++ 10 :: 96 :: 96 :: 96 :: ws)
      with ((c :: p') ++ 10 :: (96 :: 96 :: 96 :: ws)).
    rewrite (@startsWith_before_line_feed [96; 96; 96; 106; 115; 111; 110])
      by reflexivity.
    rewrite (@startsWith_before_line_feed [96; 96; 96]) by reflexivity.
    assert (Hlf : startsWith [10; 96; 96; 96]
                    ((c :: p') ++ 10 :: 96 :: 96 :: 96 :: ws)
                  = startsWith [10; 96; 96; 96] (c :: p')).
    { cbn [app]. rewrite !startsWith_cons.
      rewrite (@startsWith_before_line_feed [96; 96; 96]) by reflexivity.
      reflexivity. }
    rewrite Hlf. clear Hlf.
    destruct (startsWith [96; 96; 96; 106; 115; 111; 110] (c :: p')) eqn:EJ.
    + apply startsWith_spec in EJ. destruct EJ as [q EJ].
      simpl in EJ. inversion EJ; subst c p'. clear EJ.
      destruct q as [| c' q'].
      * cbn [app]. rewrite !startsWith_cons, !N.eqb_refl.
        cbn [andb startsWith skipn]. exact Hbt.
      * cbn [app]. rewrite !startsWith_cons, !N.eqb_refl.
        cbn [andb startsWith]. rewrite !andb_true_r.
        destruct (10 =? c') eqn:Ec.
        -- cbn [skipn]. apply IH. simpl in Hlen. lia.
        -- cbn [skipn]. apply (IH (c' :: q')). simpl in Hlen |- *. lia.
    + destruct (startsWith [10; 96; 96; 96] (c :: p')) eqn:EL.
      * apply startsWith_spec in EL. destruct EL as [q EL].
        simpl in EL. inversion EL; subst c p'. clear EL.
        cbn [app]. cbn [skipn]. apply IH. simpl in Hlen. lia.
      * destruct (startsWith [96; 96; 96] (c :: p')) eqn:EB.
        -- apply startsWith_spec in EB. destruct EB as [q EB].
           simpl in EB. inversion EB; subst c p'. clear EB.
           cbn [app]. cbn [skipn]. apply IH. simpl in Hlen. lia.
        -- cbn [app]. f_equal. apply IH. simpl in Hlen. lia.
Qed.

(** What is decoded of a fenced payload followed by white space is
    what is decoded of the bare payload. *)
Lemma cleanResponse_fenced_then_space (payload ws : JSString) :
  forallb isWhiteSpace ws = true ->
  cleanResponse (fenced payload ++ ws) = cleanResponse payload.
Proof.
  intros Hws.
  unfold cleanResponse, fenced.
  change ((js "```json" ++ 10 :: payload ++ 10 :: js "```") ++ ws)
    with (96 :: ([96; 96; 106; 115; 111; 110; 10]
             ++ (payload ++ [10; 96; 96; 96])) ++ ws).
  rewrite <- !app_assoc.
  change (96 :: [96; 96; 106; 115; 111; 110; 10] ++
             payload ++ [10; 96; 96; 96] ++ ws)
    with (96 :: [96; 96; 106; 115; 111; 110; 10] ++
             (payload ++ 10 :: [96; 96; 96] ++ ws)).
  rewrite replaceFences_step.
  change (fenceMatch (96 :: [96; 96; 106; 115; 111; 110; 10]
                         ++ (payload ++ 10 :: [96; 96; 96] ++ ws)))
    with 8%nat.
  cbn [skipn app].
  rewrite (@replaceFences_closing_fence_then ws (length payload) Hws)
    by apply Nat.le_refl.
  apply trim_app_whiteSpace. exact Hws.
Qed.

(** White space before a text is nothing to [trim]. *)
Lemma trim_whiteSpace_app (ws x : JSString) :
  forallb isWhiteSpace ws = true -> trim (ws ++ x) = trim x.
Proof.
  intros Hws. unfold trim. rewrite trimStart_whiteSpace_app by exact Hws.
  reflexivity.
Qed.

(** [trim] leaves the text of an object as it is: it starts with a
    brace and ends with one. *)
Lemma trim_object (middle : JSString) :
  trim (123 :: middle ++ [125]) = 123 :: middle ++ [125].
Proof.
  unfold trim, trimEnd.
  change (trimStart (123 :: middle ++ [125])) with (123 :: middle ++ [125]).
  assert (E : rev (123 :: middle ++ [125]) = 125 :: rev (123 :: middle)).
  { change (123 :: middle ++ [125]) with ((123 :: middle) ++ [125]).
    rewrite rev_app_distr. reflexivity. }
  rewrite E.
  change (trimStart (125 :: rev (123 :: middle)))
    with (125 :: rev (123 :: middle)).
  change (rev (125 :: rev (123 :: middle)))
    with (rev (rev (123 :: middle)) ++ [125]).
  rewrite rev_involutive. reflexivity.
Qed.

Context `{JSEngine}.

(** White space after the closing fence, a final line feed for one, is
    harmless: the fenced payload followed by white space is parsed as
    the bare payload is. *)
Theorem parseAIResponse_fenced_then_space (payload ws : JSString) :
  forallb isWhiteSpace ws = true ->
  cleanResponse (fenced payload ++ ws) = cleanResponse payload /\
  parseAIResponse (fenced payload ++ ws) = parseAIResponse payload.
Proof.
  intros Hws.
  pose proof (cleanResponse_fenced_then_space payload ws Hws) as E.
  split; [exact E|].
  unfold parseAIResponse, parseBody. rewrite E. reflexivity.
Qed.

(** A line feed before the opening fence spoils the block: the pattern
    matches the line feed with the three backticks and leaves the
    language tag, so what is decoded starts with [json] and the parser
    fails with the malformed response, whatever the payload. *)
Theorem parseAIResponse_line_feed_before_fence (payload : JSString) :
  (exists rest, cleanResponse (10 :: fenced payload) = js "json" ++ rest) /\
  parseAIResponse (10 :: fenced payload) = Throw MalformedResponse.
Proof.
  assert (E : exists rest,
             cleanResponse (10 :: fenced payload) = js "json" ++ rest).
  { unfold cleanResponse, fenced.
    change (10 :: js "```json" ++ 10 :: payload ++ 10 :: js "```")
      with (10 :: [96; 96; 96] ++ 106 :: [115; 111; 110] ++
               (10 :: payload ++ [10; 96; 96; 96])).
    rewrite replaceFences_step.
    change (fenceMatch (10 :: [96; 96; 96] ++ 106 :: [115; 111; 110] ++
                           (10 :: payload ++ [10; 96; 96; 96])))
      with 4%nat.
    cbn [skipn app].
    do 4 (rewrite replaceFences_step;
          match goal with
          | |- context [fenceMatch (?c :: ?r)] =>
            change (fenceMatch (c :: r)) with 0%nat
          end; cbv iota).
    change (106
            :: 115 :: 111 :: 110
               :: replaceFences (10 :: payload ++ [10; 96; 96; 96]))
      with (js "json" ++ replaceFences (10 :: payload ++ [10; 96; 96; 96])).
    apply (@trim_keeps_prefix (js "json") _ 106 [115; 111; 110]
                              110 [111; 115; 106]); reflexivity. }
  split; [exact E|].
  destruct E as [rest E].
  unfold parseAIResponse, parseBody. rewrite E.
  change (js "json" ++ rest) with (106 :: [115; 111; 110] ++ rest).
  rewrite JSON_parse_letter_j. reflexivity.
Qed.

(** C5 (amended).  The signal that the request was not understood.
    Take a response that is the text of an object, a brace at each end,
    with or without white space around it, and in which no three
    backticks stand in a row.  The parser fails with the understanding
    failure, and so returns no intent, exactly when the object has an
    [error] member that is truthy and can be coerced to a string for
    the line printed first.  The object in a fenced code block has the
    same outcome. *)
Theorem parseAIResponse_truthy_error (before middle after : JSString) :
  let object := 123 :: middle ++ [125] in
  let response := before ++ object ++ after in
  forallb isWhiteSpace before = true ->
  forallb isWhiteSpace after = true ->
  includes response (js "```") = false ->
  ((exists v x text,
      JSON_parse object = Normal v /\
      field v (js "error") = Some x /\ truthyValue x = true /\
      ToString x = Normal text) <->
   parseAIResponse response = Throw UnderstandingFailure) /\
  parseAIResponse (fenced object ++ after) = parseAIResponse response.
Proof.
  intros object response Hbefore Hafter Hno.
  assert (Hobject : includes object (js "```") = false).
  { destruct (includes object (js "```")) eqn:E; [|reflexivity].
    apply includes_spec in E.
    apply (@Substring_inside _ _ before after) in E.
    apply includes_spec in E. fold response in E.
    rewrite E in Hno. discriminate Hno. }
  assert (Eresponse : cleanResponse response = object).
  { rewrite (proj1 (cleanResponse_no_marker response Hno)).
    unfold response.
    rewrite trim_whiteSpace_app by exact Hbefore.
    rewrite trim_app_whiteSpace by exact Hafter.
    apply trim_object. }
  assert (Efenced : cleanResponse (fenced object ++ after) = object).
  { rewrite cleanResponse_fenced_then_space by exact Hafter.
    rewrite (proj1 (cleanResponse_no_marker object Hobject)).
    apply trim_object. }
  split.
  - rewrite parseAIResponse_understanding_iff, Eresponse. reflexivity.
  - unfold parseAIResponse, parseBody. rewrite Eresponse, Efenced.
    reflexivity.
Qed.

End FenceEdges.

(** ** More on dispatch *)

Section DispatchMore.
Import Networks Viem Faucet.
Context `{ViemChains} `{Client} `{Wallet}.

(** The transaction of a registered network, call by call. *)
Lemma makeTransaction_registered (to amount name : JSString) (w : World)
  (cfg : NetworkConfig) :
  getNetwork name = Own cfg ->
  makeTransaction to amount name w =
  match getBalance (publicClient cfg) (address account)
                   (w (chain_id (chain cfg))) with
  | (Normal balance, s1) =>
    match parseEther amount with
    | Normal value =>
      if (balance <? value)%Z then
        (Throw (ErrorObject (drainedMessage name (formatEther balance)
                                            (symbol (faucet cfg)))),
         setChain w (chain_id (chain cfg)) s1)
      else
        let (r, s2) :=
          sendTransaction (walletClient cfg account) to value
                          (Some (chain cfg)) s1 in
        (r, setChain (setChain w (chain_id (chain cfg)) s1)
                     (chain_id (chain cfg)) s2)
    | Throw e => (Throw e, setChain w (chain_id (chain cfg)) s1)
    end
  | (Throw e, s1) => (Throw e, setChain w (chain_id (chain cfg)) s1)
  end.
Proof.
  intros E. pose proof (getNetwork_clients _ E) as Hpc.
  unfold makeTransaction. rewrite E. cbv zeta.
  unfold bind, rpc, liftC, throwA. rewrite Hpc.
  destruct (getBalance (publicClient cfg) (address account)
                       (w (chain_id (chain cfg)))) as [[balance | e] s1];
    [|reflexivity].
  destruct (parseEther amount) as [value | e]; [|reflexivity].
  destruct (balance <? value)%Z; [reflexivity|].
  change (wc_chain (walletClient cfg account)) with (chain cfg).
  rewrite setChain_same. reflexivity.
Qed.

(** A hash comes back only from a transfer that was sent: the network
    is registered, the balance read on its chain covers the amount
    parsed to wei, and the hash is what sending exactly that amount to
    the recipient on that chain returned.  The chain is left in the
    state the transfer leaves; no other chain is touched. *)
Theorem makeTransaction_hash_only_when_funded
  (to amount name : JSString) (w : World) (hash : JSString) :
  fst (makeTransaction to amount name w) = Normal hash ->
  exists cfg balance value s1 s2,
    getNetwork name = Own cfg /\
    getBalance (publicClient cfg) (address account)
               (w (chain_id (chain cfg))) = (Normal balance, s1) /\
    parseEther amount = Normal value /\
    (value <= balance)%Z /\
    sendTransaction (walletClient cfg account) to value (Some (chain cfg)) s1
      = (Normal hash, s2) /\
    forall j,
      snd (makeTransaction to amount name w) j =
      if (j =? chain_id (chain cfg))%Z then s2 else w j.
Proof.
  intros Hfst.
  destruct (getNetwork name) as [cfg | k |] eqn:E;
    try (unfold makeTransaction in Hfst; rewrite E in Hfst;
         discriminate Hfst).
  rewrite (@makeTransaction_registered to amount name w cfg E) in *.
  destruct (getBalance (publicClient cfg) (address account)
                       (w (chain_id (chain cfg)))) as [[balance | e] s1] eqn:Eb;
    [|discriminate Hfst].
  destruct (parseEther amount) as [value | e] eqn:Ep; [|discriminate Hfst].
  destruct (balance <? value)%Z eqn:Elt; [discriminate Hfst|].
  destruct (sendTransaction (walletClient cfg account) to value
                            (Some (chain cfg)) s1) as [[h | e] s2] eqn:Es;
    cbn [fst snd] in *; [|discriminate Hfst].
  injection Hfst as ->.
  exists cfg, balance, value, s1, s2.
  split; [reflexivity|]. split; [exact Eb|]. split; [reflexivity|].
  split; [apply Z.ltb_ge; exact Elt|]. split; [exact Es|].
  intros j. unfold setChain.
  destruct (j =? chain_id (chain cfg))%Z; reflexivity.
Qed.

(** A name outside the enumeration causes no call and yields no hash.
    For a name that [Object.prototype] does not define either, the
    transaction and the status lookup reject with the "not configured"
    message of that name; for a name it defines, the transaction
    rejects with a type error and the status lookup answers [Unknown].
    In both cases the world is left as it was and the entry of the
    batch is a failure. *)
Theorem makeTransaction_outside_registry
  (to amount hash name : JSString) (w : World) :
  ~ In name getAvailableNetworks ->
  (inObjectPrototype name = false ->
   makeTransaction to amount name w =
     (Throw (ErrorObject (notConfiguredMessage name)), w) /\
   getTransactionStatus hash name w =
     (Throw (ErrorObject (notConfiguredMessage name)), w)) /\
  (inObjectPrototype name = true ->
   makeTransaction to amount name w =
     (Throw (ErrorObject notAFunctionMessage), w) /\
   getTransactionStatus hash name w = (Normal Unknown, w)) /\
  (exists message,
     dispatchOne to {| req_name := name; req_amount := amount;
                       req_symbol := [] |} w =
     (Normal {| network := name; result := NotSent message |}, w)).
Proof.
  intros Hout.
  destruct (getNetwork_total name) as [[cfg [_ Hin]] | [[E P] | E]];
    [contradiction | |].
  - split; [rewrite P; discriminate|]. split.
    + intros _. unfold makeTransaction, getTransactionStatus.
      rewrite E. split; reflexivity.
    + exists notAFunctionMessage.
      exact (@dispatchOne_inherited _ _ _ to
               {| req_name := name; req_amount := amount; req_symbol := [] |}
               w name E).
  - assert (P : inObjectPrototype name = false).
    { unfold getNetwork in E. destruct (getOwn networks name); [discriminate|].
      destruct (inObjectPrototype name); [discriminate | reflexivity]. }
    split; [|split; [rewrite P; discriminate|]].
    + intros _. unfold makeTransaction, getTransactionStatus.
      rewrite E. split; reflexivity.
    + exists (notConfiguredMessage name).
      exact (@dispatchOne_unknown _ _ _ to
               {| req_name := name; req_amount := amount; req_symbol := [] |}
               w E).
Qed.

(** The status lookup of a registered network never rejects.  It makes
    one receipt call on the network's chain and answers [Success] for a
    successful receipt, [Failed] for a reverted one, [Pending] for an
    error whose message contains [could not be found], and [Unknown]
    for any other failure of the call. *)
Theorem getTransactionStatus_classifies
  (hash name : JSString) (cfg : NetworkConfig) (w : World) :
  getNetwork name = Own cfg ->
  exists st,
    getTransactionStatus hash name w =
      (Normal st,
       setChain w (chain_id (chain cfg))
         (snd (getTransactionReceipt (publicClient cfg) hash
                 (w (chain_id (chain cfg)))))) /\
    match fst (getTransactionReceipt (publicClient cfg) hash
                 (w (chain_id (chain cfg)))) with
    | Normal success => st = Success
    | Normal reverted => st = Failed
    | Throw (ErrorObject message) =>
      st = if includes message (js "could not be found")
           then Pending else Unknown
    | Throw (OtherValue _) => st = Unknown
    end.
Proof.
  intros E. pose proof (getNetwork_clients _ E) as Hpc.
  unfold getTransactionStatus. rewrite E. cbv zeta.
  unfold tryCatchA, bind, rpc, ret. rewrite Hpc.
  destruct (getTransactionReceipt (publicClient cfg) hash
              (w (chain_id (chain cfg)))) as [[[|] | [m | o]] s'];
    cbn [fst snd]; eexists; split; reflexivity.
Qed.

Lemma dispatchLoop_accumulates (to : JSString) (cfgs : list NetworkRequest) :
  forall (acc : list DispatchResult) (w : World),
  dispatchLoop to acc cfgs w =
  match dispatchLoop to [] cfgs w with
  | (Normal rs, w') => (Normal (acc ++ rs), w')
  | (Throw e, w') => (Throw e, w')
  end.
Proof.
  induction cfgs as [| request rest IH]; intros acc w.
  - simpl. unfold ret. rewrite app_nil_r. reflexivity.
  - rewrite !dispatchLoop_cons.
    destruct (dispatchOne_fulfils to request w) as [r [w1 [E1 _]]].
    rewrite E1. rewrite (IH (acc ++ [r])), (IH ([] ++ [r])).
    destruct (dispatchLoop to [] rest w1) as [[rs | e] w']; [|reflexivity].
    rewrite <- app_assoc. reflexivity.
Qed.

(** Batches compose: dispatching [first ++ second] is dispatching
    [first] and then, from the world that leaves, [second]; the entries
    are those of the two runs, in that order. *)
Theorem makeMultipleTransactions_app
  (to : JSString) (first second : list NetworkRequest) (w : World) :
  exists r1 w1 r2 w2,
    makeMultipleTransactions to first w = (Normal r1, w1) /\
    makeMultipleTransactions to second w1 = (Normal r2, w2) /\
    makeMultipleTransactions to (first ++ second) w = (Normal (r1 ++ r2), w2).
Proof.
  unfold makeMultipleTransactions. revert w.
  induction first as [| request rest IH]; intros w.
  - destruct (dispatchLoop_entries to second [] w) as [r2 [w2 [E2 _]]].
    exists [], w, r2, w2. simpl app in *. repeat split; assumption.
  - destruct (dispatchOne_fulfils to request w) as [r [wa [E1 _]]].
    destruct (IH wa) as [r1 [w1 [r2 [w2 [F1 [F2 F3]]]]]].
    exists (r :: r1), w1, r2, w2.
    simpl app. rewrite !dispatchLoop_cons, E1.
    rewrite (dispatchLoop_accumulates to rest ([] ++ [r])), F1.
    rewrite (dispatchLoop_accumulates to (rest ++ second) ([] ++ [r])), F3.
    repeat split. exact F2.
Qed.

(** An entry with a hash stands for a registered network: every
    success of a batch is under a name the registry has. *)
Theorem sent_entries_are_registered
  (to : JSString) (cfgs : list NetworkRequest) (w : World)
  (entry : DispatchResult) (hash : JSString) (st : TxStatus) :
  In entry (match fst (makeMultipleTransactions to cfgs w) with
            | Normal results => results
            | Throw _ => []
            end) ->
  result entry = Sent hash st ->
  In (network entry) getAvailableNetworks /\
  exists cfg, getNetwork (network entry) = Own cfg.
Proof.
  unfold makeMultipleTransactions. revert w.
  induction cfgs as [| request rest IH]; intros w Hin Hsent.
  - simpl in Hin. contradiction.
  - rewrite dispatchLoop_cons in Hin.
    destruct (dispatchOne_fulfils to request w) as [r [w1 [E1 Hname]]].
    rewrite E1 in Hin.
    rewrite (dispatchLoop_accumulates to rest ([] ++ [r])) in Hin.
    destruct (dispatchLoop_entries to rest [] w1) as [rs [w' [E2 _]]].
    rewrite E2 in Hin. simpl in Hin. destruct Hin as [<- | Hin].
    + destruct (getNetwork_total (req_name request))
        as [[cfg [E Hav]] | [[E _] | E]].
      * rewrite Hname. split; [exact Hav | exists cfg; exact E].
      * rewrite (dispatchOne_inherited to request w E) in E1.
        injection E1 as <- _. discriminate Hsent.
      * rewrite (dispatchOne_unknown to request w E) in E1.
        injection E1 as <- _. discriminate Hsent.
    + apply (IH w1); [|exact Hsent]. rewrite E2. exact Hin.
Qed.

End DispatchMore.

(** ** More on the agent's parser *)

Section AgentParserMore.
Import Json Agent.

Ltac to_props H :=
  repeat rewrite ?orb_true_iff, ?andb_true_iff, ?N.leb_le, ?N.eqb_eq in H.

Lemma whiteSpace_range (c : N) :
  isWhiteSpace c = true -> c <= 32 \/ 160 <= c.
Proof. unfold isWhiteSpace. intros Hw. to_props Hw. lia. Qed.

Lemma toChar_range (c : N) : isToChar c = true -> 48 <= c <= 120.
Proof. unfold isToChar. intros Hc. to_props Hc. lia. Qed.

Lemma amountChar_range (c : N) : isAmountChar c = true -> 46 <= c <= 57.
Proof. unfold isAmountChar. intros Hc. to_props Hc. lia. Qed.

Lemma not_whiteSpace_between (c : N) :
  33 <= c <= 159 -> isWhiteSpace c = false.
Proof.
  intros Hr. destruct (isWhiteSpace c) eqn:Hw; [|reflexivity].
  apply whiteSpace_range in Hw. lia.
Qed.

Lemma lower_e (c : N) : lower c = 101 -> c = 101 \/ c = 69.
Proof.
  unfold lower. destruct ((65 <=? c) && (c <=? 90)) eqn:Eu.
  - to_props Eu. lia.
  - intros ->. left; reflexivity.
Qed.

Lemma stripEthSuffix_unfold (s : JSString) :
  stripEthSuffix s =
  if isEthSuffix s then []
  else match s with
       | [] => []
       | c :: rest => c :: stripEthSuffix rest
       end.
Proof. destruct s; reflexivity. Qed.

(** What is cut is all of a suffix of the pattern, and nothing else is
    changed: the result is the input up to the leftmost position where
    the rest is white space, [ETH] in any case and white space; an
    input with no such position comes back as it is. *)
Theorem stripEthSuffix_cuts_suffix (s : JSString) :
  exists rest,
    s = stripEthSuffix s ++ rest /\
    (rest = [] \/ isEthSuffix rest = true) /\
    (forall kept dropped,
       stripEthSuffix s = kept ++ dropped -> dropped <> [] ->
       isEthSuffix (dropped ++ rest) = false).
Proof.
  induction s as [| c s IH].
  - exists []. rewrite stripEthSuffix_unfold. simpl.
    repeat split; [left; reflexivity|].
    intros kept dropped E Hne. destruct kept, dropped; try discriminate.
    contradiction.
  - rewrite stripEthSuffix_unfold.
    destruct (isEthSuffix (c :: s)) eqn:Ec.
    + exists (c :: s). repeat split; [right; exact Ec|].
      intros kept dropped E Hne. destruct kept, dropped; try discriminate.
      contradiction.
    + destruct IH as [rest [Es [Hrest Hleft]]].
      exists rest. split; [simpl; rewrite <- Es; reflexivity|].
      split; [exact Hrest|].
      intros kept dropped E Hne. destruct kept as [| k kept].
      * simpl in E. subst dropped. simpl. rewrite <- Es. exact Ec.
      * simpl in E. injection E as _ E. apply (Hleft kept); assumption.
Qed.

(** An amount written with its unit loses the unit: digits and points
    followed by white space, [ETH] in any case and white space come
    back as the digits and points alone. *)
Theorem stripEthSuffix_amount_with_unit
  (digits ws1 ws2 : JSString) (e t h : N) :
  forallb isAmountChar digits = true ->
  forallb isWhiteSpace ws1 = true ->
  forallb isWhiteSpace ws2 = true ->
  lower e = 101 -> lower t = 116 -> lower h = 104 ->
  stripEthSuffix (digits ++ ws1 ++ [e; t; h] ++ ws2) = digits.
Proof.
  intros Hd Hw1 Hw2 He Ht Hh.
  assert (Hne : isWhiteSpace e = false).
  { destruct (lower_e e He) as [-> | ->]; reflexivity. }
  induction digits as [| c digits IH].
  - rewrite stripEthSuffix_unfold. unfold isEthSuffix. simpl app.
    rewrite trimStart_whiteSpace_app by exact Hw1.
    simpl trimStart. rewrite Hne, He, Ht, Hh, Hw2. reflexivity.
  - simpl in Hd. apply andb_true_iff in Hd. destruct Hd as [Hc Hd].
    pose proof (amountChar_range c Hc) as Hr.
    rewrite stripEthSuffix_unfold. simpl app.
    assert (Hs : isEthSuffix
                   (c :: digits ++ ws1 ++ e :: t :: h :: ws2) = false).
    { unfold isEthSuffix. simpl trimStart.
      rewrite not_whiteSpace_between by lia.
      destruct (digits ++ ws1 ++ e :: t :: h :: ws2) as [| x [| y r]];
        try reflexivity.
      assert (Hl : (lower c =? 101) = false).
      { apply N.eqb_neq. intros Hl. apply lower_e in Hl. lia. }
      rewrite Hl. reflexivity. }
    simpl app in Hs. rewrite Hs. f_equal. apply IH. exact Hd.
Qed.

Lemma dropWhile_whiteSpace_app (ws s : JSString) :
  forallb isWhiteSpace ws = true ->
  dropWhile isWhiteSpace (ws ++ s) = dropWhile isWhiteSpace s.
Proof.
  induction ws as [| c ws IH]; simpl; [reflexivity|].
  intros Hw. apply andb_true_iff in Hw. destruct Hw as [Hc Hw].
  rewrite Hc. apply IH; exact Hw.
Qed.

Lemma labelled_complete (label : JSString) (class : N -> bool)
  (ws : JSString) (c : N) (post : JSString) :
  forallb isWhiteSpace ws = true ->
  class c = true -> isWhiteSpace c = false ->
  labelled label class (label ++ ws ++ c :: post)
  = Some (c :: takeWhile class post).
Proof.
  intros Hws Hc Hnw. unfold labelled.
  rewrite startsWith_app, skipn_label.
  rewrite dropWhile_whiteSpace_app by exact Hws.
  simpl. rewrite Hnw. simpl. rewrite Hc. reflexivity.
Qed.

Lemma explanationAt_complete (ws : JSString) (c : N) (post : JSString) :
  forallb isWhiteSpace ws = true ->
  notLineTerminator c = true ->
  exists capture,
    explanationAt (js "explanation:" ++ ws ++ c :: post) = Some capture.
Proof.
  intros Hws Hc. unfold explanationAt.
  rewrite startsWith_app.
  change 12%nat with (length (js "explanation:")). rewrite skipn_label.
  destruct (dropWhile isWhiteSpace (ws ++ c :: post)) as [| x rest] eqn:Ed.
  - destruct (find notLineTerminator
                (rev (takeWhile isWhiteSpace (ws ++ c :: post))))
      as [y|] eqn:Ef; [eexists; reflexivity|].
    exfalso.
    pose proof (takeWhile_dropWhile isWhiteSpace (ws ++ c :: post)) as Hsplit.
    rewrite Ed, app_nil_r in Hsplit.
    assert (Hin : In c (rev (takeWhile isWhiteSpace (ws ++ c :: post)))).
    { rewrite <- Hsplit. apply -> in_rev. apply in_or_app. right. left.
      reflexivity. }
    pose proof (find_none _ _ Ef c Hin) as Hnone. congruence.
  - eexists; reflexivity.
Qed.

(** A response in labelled lines is always parsed by the agent: where
    the three labels occur, each followed by white space and one code
    unit of its class at least, the parser returns an intent, whether
    or not the response is JSON. *)
Theorem parseAIResponse_labelled_lines
  (response pre1 ws1 post1 pre2 ws2 post2 pre3 ws3 post3 : JSString)
  (c1 c2 c3 : N) :
  response = pre1 ++ js "to:" ++ ws1 ++ c1 :: post1 ->
  forallb isWhiteSpace ws1 = true -> isToChar c1 = true ->
  response = pre2 ++ js "amount:" ++ ws2 ++ c2 :: post2 ->
  forallb isWhiteSpace ws2 = true -> isAmountChar c2 = true ->
  response = pre3 ++ js "explanation:" ++ ws3 ++ c3 :: post3 ->
  forallb isWhiteSpace ws3 = true -> notLineTerminator c3 = true ->
  exists intent, Agent.parseAIResponse response = Normal intent.
Proof.
  intros E1 Hw1 Hc1 E2 Hw2 Hc2 E3 Hw3 Hc3.
  unfold Agent.parseAIResponse, tryCatch.
  destruct (Agent.parseBody response) as [i | e]; [eexists; reflexivity|].
  unfold regexFallback, toMatch, amountMatch, explanationMatch.
  assert (M1 : exists t,
             firstMatch (labelled (js "to:") isToChar) response = Some t).
  { rewrite E1. eapply firstMatch_complete. apply labelled_complete.
    - exact Hw1.
    - exact Hc1.
    - apply not_whiteSpace_between. pose proof (toChar_range c1 Hc1). lia. }
  assert (M2 : exists a,
             firstMatch (labelled (js "amount:") isAmountChar) response
             = Some a).
  { rewrite E2. eapply firstMatch_complete. apply labelled_complete.
    - exact Hw2.
    - exact Hc2.
    - apply not_whiteSpace_between.
      pose proof (amountChar_range c2 Hc2). lia. }
  assert (M3 : exists x, firstMatch explanationAt response = Some x).
  { rewrite E3.
    destruct (explanationAt_complete ws3 c3 post3 Hw3 Hc3) as [cap Hcap].
    eapply firstMatch_complete. exact Hcap. }
  destruct M1 as [t ->], M2 as [a ->], M3 as [x ->].
  eexists; reflexivity.
Qed.

(** The structured decoding of the agent succeeds exactly on JSON whose
    [to], [amount] and [explanation] are strings.  The recipient and the
    explanation are passed on as decoded, the amount without its unit;
    the recipient is not tested against any pattern. *)
Theorem parseBody_strings_only (response : JSString) (intent : Intent) :
  Agent.parseBody response = Normal intent <->
  exists v t a e,
    JSON_parse response = Normal v /\
    Faucet.field v (js "to") = Some (JString t) /\
    Faucet.field v (js "amount") = Some (JString a) /\
    Faucet.field v (js "explanation") = Some (JString e) /\
    intent = {| to := t; amount := stripEthSuffix a; explanation := e |}.
Proof.
  unfold Agent.parseBody. split.
  - destruct (JSON_parse response) as [v | err]; [|discriminate].
    cbn [bindC]. destruct v as [| b | m x | s | items | props];
      try discriminate. cbn [getProp bindC Faucet.field].
    destruct (getOwnProp props (js "to")) as [[| | | t | |]|] eqn:Et;
      try discriminate.
    destruct (getOwnProp props (js "amount")) as [[| | | a | |]|] eqn:Ea;
      try discriminate.
    destruct (getOwnProp props (js "explanation")) as [[| | | e | |]|] eqn:Ee;
      try discriminate.
    cbn [asString]. intros E; injection E as <-.
    exists (JObject props), t, a, e. cbn [Faucet.field].
    repeat split; try reflexivity; assumption.
  - intros [v [t [a [e [Ev [Et [Ea [Ee ->]]]]]]]]. rewrite Ev. cbn [bindC].
    destruct v as [| b | m x | s | items | props]; try discriminate Et.
    cbn [getProp bindC Faucet.field] in *. rewrite Et, Ea, Ee.
    reflexivity.
Qed.

End AgentParserMore.

(** ** More on network selection *)

Section SelectionMore.
Import Networks.
Context `{JSEngine} `{ViemChains}.

(** What is selected can be dispatched: the selector returns names of
    the enumeration, each at most once, and the lookup answers each of
    them with a configuration. *)
Theorem getNetworksFromInput_selects_registered
  (input name : JSString) :
  In name (Faucet.getNetworksFromInput input) ->
  NoDup (Faucet.getNetworksFromInput input) /\
  In name getAvailableNetworks /\
  exists cfg, getNetwork name = Own cfg.
Proof.
  intros Hin.
  assert (Hnd : NoDup getAvailableNetworks).
  { rewrite getAvailableNetworks_enumeration.
    repeat constructor; simpl; intuition discriminate. }
  assert (Hav : In name getAvailableNetworks).
  { unfold Faucet.getNetworksFromInput in Hin. cbv zeta in Hin.
    destruct (_ || _) in Hin; [exact Hin|].
    apply filter_In in Hin. apply Hin. }
  split; [|split; [exact Hav|]].
  - unfold Faucet.getNetworksFromInput. cbv zeta.
    destruct (_ || _); [exact Hnd | apply NoDup_filter; exact Hnd].
  - rewrite getAvailableNetworks_enumeration in Hav. simpl in Hav.
    destruct Hav as [<- | [<- | [<- | [<- | [<- | []]]]]];
      eexists; reflexivity.
Qed.

(** Names are matched as substrings, so a request that names
    [optimism-sepolia] selects [sepolia] as well, on an engine whose
    lower-casing leaves the registered names as they are. *)
Theorem optimism_sepolia_selects_sepolia (input : JSString) :
  (forall name, In name getAvailableNetworks -> toLowerCase name = name) ->
  In (js "optimism-sepolia") (Faucet.getNetworksFromInput input) ->
  In (js "sepolia") (Faucet.getNetworksFromInput input).
Proof.
  intros Hfix. unfold Faucet.getNetworksFromInput. cbv zeta.
  destruct (_ || _).
  - intros _. rewrite getAvailableNetworks_enumeration. left. reflexivity.
  - rewrite !filter_In. intros [_ Hinc].
    split; [rewrite getAvailableNetworks_enumeration; left; reflexivity|].
    rewrite (Hfix (js "optimism-sepolia")) in Hinc
      by (rewrite getAvailableNetworks_enumeration;
          right; right; left; reflexivity).
    rewrite (Hfix (js "sepolia"))
      by (rewrite getAvailableNetworks_enumeration; left; reflexivity).
    apply includes_spec. apply includes_spec in Hinc.
    destruct Hinc as [pre [post ->]].
    exists (pre ++ js "optimism-"), post.
    rewrite <- !app_assoc. reflexivity.
Qed.

End SelectionMore.

(** ** More on the agent's transaction and timer *)

Section AgentMore.
Import Networks Viem Agent.
Context `{ViemChains} `{Client} `{Wallet}.

(** The agent hands a hash back only from a transfer that was sent on
    Sepolia: the balance read covers the amount parsed to wei, and the
    hash is what sending exactly that amount to the recipient
    returned. *)
Theorem agent_hash_only_when_funded
  (to amount : JSString) (w : World) (hash : JSString) :
  fst (Agent.makeTransaction to amount w) = Normal hash ->
  exists balance value s1 s2,
    getBalance publicClient (address account) (w (chain_id sepolia))
      = (Normal balance, s1) /\
    parseEther amount = Normal value /\
    (value <= balance)%Z /\
    sendTransaction walletClient to value None s1 = (Normal hash, s2) /\
    forall j,
      snd (Agent.makeTransaction to amount w) j =
      if (j =? chain_id sepolia)%Z then s2 else w j.
Proof.
  unfold Agent.makeTransaction, bind, rpc, liftC, throwA.
  change (pc_chain publicClient) with sepolia.
  change (wc_chain walletClient) with sepolia.
  destruct (getBalance publicClient (address account) (w (chain_id sepolia)))
    as [[balance | e] s1] eqn:Eb; cbn [fst snd]; [|discriminate].
  destruct (parseEther amount) as [value | e] eqn:Ep;
    cbn [fst snd]; [|discriminate].
  destruct (balance <? value)%Z eqn:Elt; cbn [fst snd]; [discriminate|].
  rewrite setChain_same.
  destruct (sendTransaction walletClient to value None s1)
    as [[h | e] s2] eqn:Es; cbn [fst snd]; [|discriminate].
  intros F; injection F as <-.
  exists balance, value, s1, s2.
  split; [reflexivity|]. split; [reflexivity|].
  split; [apply Z.ltb_ge; exact Elt|]. split; [exact Es|].
  intros j. unfold setChain. destruct (j =? chain_id sepolia)%Z; reflexivity.
Qed.

(** The timer makes no lookup it does not need.  Once the interval is
    cleared it stays cleared and the callback is called no more,
    whatever happens later; the calls then under way may still be
    answered, so that of the chain no more lookups are asked, the first
    one apart, than callbacks were called before the interval was
    cleared. *)
Theorem cleared_timer_calls_no_lookup
  (hash : JSString) (w0 : World) (events later : list Event) :
  intervalSet (fst (run hash events (startPolling hash w0))) = false ->
  intervalSet (fst (run hash (events ++ later) (startPolling hash w0)))
    = false /\
  launches (fst (run hash (events ++ later) (startPolling hash w0)))
    = launches (fst (run hash events (startPolling hash w0))) /\
  exists n,
    (n <= length (launches (fst (run hash events (startPolling hash w0)))))%nat
    /\
    snd (run hash (events ++ later) (startPolling hash w0))
      = afterLookups hash (S n) w0.
Proof.
  intros Hclr. rewrite run_app.
  destruct (@run_cleared _ _ hash later _ Hclr) as [Hstay Hsame].
  split; [exact Hstay|]. split; [exact Hsame|].
  pose proof (@run_consistent _ _ hash w0 (events ++ later) _
                (@startPolling_consistent _ _ hash w0)) as Hcons.
  rewrite run_app in Hcons.
  destruct Hcons as [_ [_ [_ [body [n [_ [_ [_ [Hcount [Hperm Hw]]]]]]]]]].
  exists n. split; [|exact Hw].
  rewrite <- Hsame, <- Hcount.
  apply Permutation_length in Hperm.
  unfold answers in Hperm. rewrite length_map, length_seq in Hperm.
  rewrite <- Hperm, length_app.
  pose proof (answered_length
                (underWay (fst (run hash later
                                  (run hash events (startPolling hash w0)))))).
  lia.
Qed.

End AgentMore.

(** ** The further properties at work on the reference instances *)

Section MoreExamples.
Import Networks Json Viem Reference.

#[local] Existing Instance Reference.engine.
#[local] Existing Instance Reference.chains.
#[local] Existing Instance Reference.client.
#[local] Existing Instance Reference.wallet.

(** C5 (witness). *)
Lemma parseAIResponse_truthy_error_witness :
  forallb isWhiteSpace [32] = true /\
  forallb isWhiteSpace [13; 10] = true /\
  includes ([32] ++ (123 :: jsq "'error': 'unclear'" ++ [125]) ++ [13; 10])
           (js "```") = false /\
  Faucet.parseAIResponse
    ([32] ++ (123 :: jsq "'error': 'unclear'" ++ [125]) ++ [13; 10])
    = Throw Faucet.UnderstandingFailure /\
  Faucet.parseAIResponse
    (Faucet.fenced (123 :: jsq "'error': 'unclear'" ++ [125]) ++ [13; 10])
    = Throw Faucet.UnderstandingFailure.
Proof.
  split; [reflexivity|]. split; [reflexivity|].
  split; [vm_compute; reflexivity|].
  refine ((fun P => conj (proj1 (proj1 P) _)
                         (eq_trans (proj2 P) (proj1 (proj1 P) _)))
            (@parseAIResponse_truthy_error Reference.engine
               [32] (jsq "'error': 'unclear'") [13; 10] _ _ _)).
  - eexists. eexists. eexists.
    split; [vm_compute; reflexivity|].
    split; [vm_compute; reflexivity|].
    split; vm_compute; reflexivity.
  - eexists. eexists. eexists.
    split; [vm_compute; reflexivity|].
    split; [vm_compute; reflexivity|].
    split; vm_compute; reflexivity.
  - reflexivity.
  - reflexivity.
  - vm_compute; reflexivity.
Defined.

Lemma parseAIResponse_error_classes_witness :
  Faucet.parseAIResponse badRecipientResponse = Throw Faucet.MalformedResponse /\
  (Faucet.MalformedResponse = Faucet.UnderstandingFailure \/
   Faucet.MalformedResponse = Faucet.MalformedResponse).
Proof.
  split; [vm_compute; reflexivity|].
  apply (@parseAIResponse_error_classes Reference.engine badRecipientResponse).
  vm_compute; reflexivity.
Defined.

Lemma parseAIResponse_returns_validated_witness :
  exists intent,
    Faucet.parseAIResponse wellFormedResponse = Normal intent /\
    JSON_parse (Faucet.cleanResponse wellFormedResponse) = Normal intent /\
    truthy (Faucet.field intent (js "to")) = true.
Proof.
  eexists. split; [vm_compute; reflexivity|].
  refine ((fun P => conj (proj1 P) (proj1 (proj2 (proj2 (proj2 P)))))
            (@parseAIResponse_returns_validated Reference.engine
               wellFormedResponse _ _)).
  vm_compute; reflexivity.
Defined.

Lemma parseAIResponse_fenced_then_space_witness :
  forallb isWhiteSpace [10; 32; 10] = true /\
  Faucet.parseAIResponse (Faucet.fenced wellFormedResponse ++ [10; 32; 10]) =
  Faucet.parseAIResponse wellFormedResponse.
Proof.
  split; [reflexivity|].
  apply (@parseAIResponse_fenced_then_space Reference.engine
           wellFormedResponse [10; 32; 10]).
  reflexivity.
Defined.

Lemma makeTransaction_hash_only_when_funded_witness :
  fst (Faucet.makeTransaction recipient (js "0.01") (js "sepolia") (funded 0))
    = Normal (js "0x0") /\
  exists cfg balance value s1 s2,
    getNetwork (js "sepolia") = Own cfg /\
    getBalance (publicClient cfg) (address account)
               (funded 0 (chain_id (chain cfg))) = (Normal balance, s1) /\
    parseEther (js "0.01") = Normal value /\
    (value <= balance)%Z /\
    sendTransaction (walletClient cfg account) recipient value
                    (Some (chain cfg)) s1 = (Normal (js "0x0"), s2) /\
    forall j,
      snd (Faucet.makeTransaction recipient (js "0.01") (js "sepolia")
                                  (funded 0)) j =
      if (j =? chain_id (chain cfg))%Z then s2 else funded 0 j.
Proof.
  split; [vm_compute; reflexivity|].
  apply (@makeTransaction_hash_only_when_funded
           Reference.chains Reference.client Reference.wallet).
  vm_compute; reflexivity.
Defined.

Lemma makeTransaction_outside_registry_witness :
  ~ In (js "foo") getAvailableNetworks /\
  Faucet.makeTransaction recipient (js "0.01") (js "foo") drained =
    (Throw (ErrorObject (js "Network foo not configured")), drained).
Proof.
  assert (Hout : ~ In (js "foo") getAvailableNetworks).
  { rewrite getAvailableNetworks_enumeration. simpl.
    intros [E | [E | [E | [E | [E | []]]]]]; discriminate E. }
  split; [exact Hout|].
  exact (proj1 (proj1 (@makeTransaction_outside_registry
                         Reference.chains Reference.client Reference.wallet
                         recipient (js "0.01") (js "0x0") (js "foo") drained
                         Hout) eq_refl)).
Defined.

Lemma getTransactionStatus_classifies_witness :
  getNetwork (js "sepolia") =
    Own (createNetworkConfig sepolia
           {| symbol := js "ETH"; amount := js "0.01" |}) /\
  exists st,
    fst (Faucet.getTransactionStatus (js "0x0") (js "sepolia") (funded 2))
      = Normal st /\
    st = Pending.
Proof.
  split; [reflexivity|].
  destruct (@getTransactionStatus_classifies
              Reference.chains Reference.client
              (js "0x0") (js "sepolia")
              (createNetworkConfig sepolia
                 {| symbol := js "ETH"; amount := js "0.01" |})
              (funded 2) eq_refl) as [st [E Hst]].
  exists st. split; [rewrite E; reflexivity|].
  vm_compute in Hst. exact Hst.
Defined.

Lemma sent_entries_are_registered_witness :
  fst (Faucet.makeMultipleTransactions recipient [sepoliaRequest] (funded 0)) =
    Normal [ {| Faucet.network := js "sepolia";
                Faucet.result := Faucet.Sent (js "0x0") Success |} ] /\
  In (js "sepolia") getAvailableNetworks /\
  exists cfg, getNetwork (js "sepolia") = Own cfg.
Proof.
  split; [vm_compute; reflexivity|].
  apply (@sent_entries_are_registered
           Reference.chains Reference.client Reference.wallet
           recipient [sepoliaRequest] (funded 0)
           {| Faucet.network := js "sepolia";
              Faucet.result := Faucet.Sent (js "0x0") Success |}
           (js "0x0") Success).
  - vm_compute. left. reflexivity.
  - reflexivity.
Defined.

Lemma stripEthSuffix_amount_with_unit_witness :
  Agent.stripEthSuffix (js "0.5 ETH") = js "0.5" /\
  Agent.stripEthSuffix (js "12  eth ") = js "12".
Proof.
  split.
  - exact (@stripEthSuffix_amount_with_unit (js "0.5") (js " ") [] 69 84 72
             eq_refl eq_refl eq_refl eq_refl eq_refl eq_refl).
  - exact (@stripEthSuffix_amount_with_unit (js "12") (js "  ") (js " ")
             101 116 104 eq_refl eq_refl eq_refl eq_refl eq_refl eq_refl).
Defined.

Lemma parseAIResponse_labelled_lines_witness :
  exists intent, Agent.parseAIResponse labelledResponse = Normal intent.
Proof.
  apply (@parseAIResponse_labelled_lines labelledResponse
           [] (js " ")
           (js "x2d6DA915F00dcA50b06a60fca010949382f4e0e8 amount: 0.01 explanation: faucet drip")
           (js "to: 0x2d6DA915F00dcA50b06a60fca010949382f4e0e8 ") (js " ")
           (js ".01 explanation: faucet drip")
           (js "to: 0x2d6DA915F00dcA50b06a60fca010949382f4e0e8 amount: 0.01 ")
           (js " ") (js "aucet drip")
           48 48 102);
    vm_compute; reflexivity.
Defined.

Lemma getNetworksFromInput_selects_registered_witness :
  In (js "polygon") (Faucet.getNetworksFromInput (js "Send on POLYGON")) /\
  NoDup (Faucet.getNetworksFromInput (js "Send on POLYGON")) /\
  In (js "polygon") getAvailableNetworks /\
  exists cfg, getNetwork (js "polygon") = Own cfg.
Proof.
  assert (Hin : In (js "polygon")
                   (Faucet.getNetworksFromInput (js "Send on POLYGON"))).
  { vm_compute. left. reflexivity. }
  split; [exact Hin|].
  exact (@getNetworksFromInput_selects_registered
           Reference.engine Reference.chains
           (js "Send on POLYGON") (js "polygon") Hin).
Defined.

Lemma reference_lowercase_fixes_names :
  forall name, In name getAvailableNetworks -> toLowerCase name = name.
Proof.
  intros name Hin. rewrite getAvailableNetworks_enumeration in Hin.
  simpl in Hin.
  destruct Hin as [<- | [<- | [<- | [<- | [<- | []]]]]];
    vm_compute; reflexivity.
Defined.

Lemma optimism_sepolia_selects_sepolia_witness :
  In (js "optimism-sepolia")
     (Faucet.getNetworksFromInput (js "drip on Optimism-Sepolia please")) /\
  In (js "sepolia")
     (Faucet.getNetworksFromInput (js "drip on Optimism-Sepolia please")).
Proof.
  assert (Hin : In (js "optimism-sepolia")
                   (Faucet.getNetworksFromInput
                      (js "drip on Optimism-Sepolia please"))).
  { vm_compute. right. left. reflexivity. }
  split; [exact Hin|].
  exact (@optimism_sepolia_selects_sepolia
           Reference.engine Reference.chains
           (js "drip on Optimism-Sepolia please")
           reference_lowercase_fixes_names Hin).
Defined.

Lemma agent_hash_only_when_funded_witness :
  fst (Agent.makeTransaction recipient (js "0.01") (funded 0))
    = Normal (js "0x0") /\
  exists balance value s1 s2,
    getBalance Agent.publicClient (address account)
               (funded 0 (chain_id sepolia)) = (Normal balance, s1) /\
    parseEther (js "0.01") = Normal value /\
    (value <= balance)%Z /\
    sendTransaction Agent.walletClient recipient value None s1
      = (Normal (js "0x0"), s2) /\
    forall j,
      snd (Agent.makeTransaction recipient (js "0.01") (funded 0)) j =
      if (j =? chain_id sepolia)%Z then s2 else funded 0 j.
Proof.
  split; [vm_compute; reflexivity|].
  apply (@agent_hash_only_when_funded
           Reference.chains Reference.client Reference.wallet).
  vm_compute; reflexivity.
Defined.

Lemma cleared_timer_calls_no_lookup_witness :
  Agent.intervalSet
    (fst (Agent.run (js "0x0") (Agent.promptly 4)
            (Agent.startPolling (js "0x0") (funded 4)))) = false /\
  Agent.launches
    (fst (Agent.run (js "0x0")
            (Agent.promptly 4 ++ [Agent.TimerExpires; Agent.TimerExpires])
            (Agent.startPolling (js "0x0") (funded 4))))
  = Agent.launches
      (fst (Agent.run (js "0x0") (Agent.promptly 4)
              (Agent.startPolling (js "0x0") (funded 4)))).
Proof.
  assert (Hclr : Agent.intervalSet
                   (fst (Agent.run (js "0x0") (Agent.promptly 4)
                           (Agent.startPolling (js "0x0") (funded 4))))
                 = false) by (vm_compute; reflexivity).
  split; [exact Hclr|].
  exact (proj1 (proj2 (@cleared_timer_calls_no_lookup
                         Reference.chains Reference.client
                         (js "0x0") (funded 4) (Agent.promptly 4)
                         [Agent.TimerExpires; Agent.TimerExpires] Hclr))).
Defined.

End MoreExamples.
